(** * Language detection by character n-grams (src/libmime/lang_detection.c)

    A shallow embedding of the n-gram window walk, the stratified word
    sampler, the two candidate scans and the detection entry point, of the
    key functions of the frequency tables, the profile loader, the detector
    set-up and the token conversion, followed by the properties established
    for them.

    C integers are carried by [Z]; every conversion the C code performs
    between signed and unsigned operands is written with [u32] / [u64].
    Arrays reached through a pointer are lists, and a load or store outside
    the list is a fault (undefined behaviour in C), reported as [None]. *)

From stdpp Require Import gmap strings list fin_maps.
From Stdlib Require Import ZArith Lia Ascii.

Local Open Scope Z_scope.

(** ** Machine integers *)

(** [guint]: 32-bit unsigned. *)
Definition u32 (z : Z) : Z := z mod 2 ^ 32.

(** [gsize], [guint64]: 64-bit unsigned.  A [goffset] (signed 64-bit)
    compared with a [gsize] is converted to this type first. *)
Definition u64 (z : Z) : Z := z mod 2 ^ 64.

(** [UChar]: one UTF-16 code unit. *)
Definition UChar : Type := Z.

(** [(UChar)' '] *)
Definition SPACE : UChar := 32.

(** ** Tokens *)

(** Modelled from the spec: [rspamd_stat_token_t] is declared outside this
    file; the spec describes a token as a sequence of fixed-width characters
    together with its length, and the functions below use the two fields
    that carry them.  [begin] is the storage the pointer addresses, read as
    an array of [UChar]; it may extend past the token (the converter
    allocates one extra element).  [len] is the number of characters of the
    token, a [gsize]. *)
Record rspamd_stat_token_t : Type := mk_token {
  begin : list UChar;
  len : Z
}.

(** [*(((UChar * )tok->begin) + off)] *)
Definition tok_load (tok : rspamd_stat_token_t) (off : Z) : option UChar :=
  if decide (0 <= off) then begin tok !! Z.to_nat off else None.

(** [window[i] = c] on the caller's [UChar window[3]]. *)
Definition window_store (window : list UChar) (i : Z) (c : UChar)
  : option (list UChar) :=
  if decide (0 <= i < Z.of_nat (length window))
  then Some (<[Z.to_nat i := c]> window)
  else None.

(** [for (i = i0; i < i0 + n; i ++) body]: [n] rounds of a fallible body. *)
Fixpoint for_loop {S : Type} (n : nat) (i : Z)
    (body : Z -> S -> option S) (s : S) : option S :=
  match n with
  | O => Some s
  | Datatypes.S n' => s' ← body i s; for_loop n' (i + 1) body s'
  end.

(** ** The window walk *)

Inductive rspamd_language_gramm_type : Type :=
  | rs_unigramm
  | rs_bigramm
  | rs_trigramm.

(** [rspamd_language_detector_next_ngramm].  The result is the window after
    the call and the returned offset ([-1] when the walk is over).  The
    three-way conditional of the [wlen > 1] case has no final [else]: after
    the leading-space branch and after the trailing-space branch control
    continues into the loop labelled "Normal case". *)
Definition rspamd_language_detector_next_ngramm
    (tok : rspamd_stat_token_t) (window : list UChar) (wlen : Z) (cur_off : Z)
  : option (list UChar * Z) :=
  if decide (1 < wlen) then
    let normal (w : list UChar) : option (list UChar * Z) :=
      w' ← for_loop (Z.to_nat wlen) 0
             (λ i w, c ← tok_load tok (cur_off + i); window_store w i c) w;
      Some (w', cur_off + 1) in
    if decide (cur_off = 0) then
      w0 ← window_store window 0 SPACE;
      w1 ← for_loop (Z.to_nat (wlen - 1)) 0
             (λ i w, c ← tok_load tok i; window_store w (i + 1) c) w0;
      normal w1
    else if decide (u64 (cur_off + wlen) = u64 (len tok + 1)) then
      w1 ← for_loop (Z.to_nat (wlen - 1)) 0
             (λ i w, c ← tok_load tok (cur_off + i); window_store w i c) window;
      w2 ← window_store w1 (wlen - 1) SPACE;
      normal w2
    else if decide (u64 (len tok + 1) < u64 (cur_off + wlen)) then
      Some (window, -1)
    else
      normal window
  else
    if decide (u64 cur_off <= u64 (len tok)) then
      Some (window, -1)
    else
      c ← tok_load tok cur_off;
      w' ← window_store window 0 c;
      Some (w', cur_off + 1).

(** [wlen] as chosen by the [switch] of the two word walkers. *)
Definition wlen_of (type : rspamd_language_gramm_type) : Z :=
  match type with
  | rs_unigramm => 1
  | rs_bigramm => 2
  | rs_trigramm => 3
  end.

(** The loop shared by [rspamd_language_detector_detect_word] and
    [rspamd_language_detector_update_guess]:
    [while ((cur = next_ngramm (tok, window, wlen, cur)) != -1) { }].
    The loop body is empty in the source; what is recorded here is, for each
    call that did not return [-1], the offset it was called with and the
    first [wlen] elements of the window it left behind.  [fuel] bounds the
    number of calls; [None] is a fault or exhausted fuel. *)
Fixpoint ngramm_walk (fuel : nat) (tok : rspamd_stat_token_t)
    (window : list UChar) (wlen : Z) (cur : Z)
  : option (list (Z * list UChar)) :=
  match fuel with
  | O => None
  | Datatypes.S fuel' =>
      '(window', nxt) ← rspamd_language_detector_next_ngramm tok window wlen cur;
      if decide (nxt = -1) then Some []
      else rest ← ngramm_walk fuel' tok window' wlen nxt;
           Some ((cur, take (Z.to_nat wlen) window') :: rest)
  end.

(** The windows of one token for one gram order, starting at offset [0] as
    both walkers do.  A walk makes at most [len + 2] calls. *)
Definition token_windows (tok : rspamd_stat_token_t) (window : list UChar)
    (type : rspamd_language_gramm_type) : option (list (Z * list UChar)) :=
  ngramm_walk (Z.to_nat (len tok) + 2) tok window (wlen_of type) 0.

(** ** The stratified sampler *)

(** [goffset], [gint64]: the value a 64-bit unsigned becomes when stored
    into a signed 64-bit slot. *)
Definition s64 (z : Z) : Z := (z + 2 ^ 63) mod 2 ^ 64 - 2 ^ 63.

(** How a call that may hit [g_assert] ends. *)
Inductive outcome (A : Type) : Type :=
  | Ok (a : A)
  | AssertFailed
  | Fault
  | OutOfFuel.
Arguments Ok {A} a.
Arguments AssertFailed {A}.
Arguments Fault {A}.
Arguments OutOfFuel {A}.

(** [ucs_tokens->len] of a [GPtrArray]. *)
Definition ptr_array_len {A : Type} (arr : list A) : Z := Z.of_nat (length arr).

(** [offsets_out[idx] = sel] *)
Definition offsets_store (out : list Z) (idx : Z) (sel : Z) : option (list Z) :=
  if decide (0 <= idx < Z.of_nat (length out))
  then Some (<[Z.to_nat idx := s64 sel]> out)
  else None.

(** The [for] loop of [rspamd_language_detector_random_select].  [coins] is
    the sequence of values [rspamd_random_uint64_fast] yields (a helper
    declared elsewhere) and [drawn] the number of values consumed so far. *)
Fixpoint random_select_loop (fuel : nat) (coins : nat -> Z)
    (tokens_len step_len : Z) (i out_idx : Z) (drawn : nat) (out : list Z)
  : outcome (list Z * nat) :=
  match fuel with
  | O => OutOfFuel
  | Datatypes.S fuel' =>
      if decide (i < tokens_len) then
        let coin := u64 (coins drawn) in
        if decide (step_len = 0) then Fault
        else
          let sel := u64 (coin mod step_len + i) in
          match offsets_store out out_idx sel with
          | None => Fault
          | Some out' =>
              random_select_loop fuel' coins tokens_len step_len
                (u32 (i + step_len)) (u32 (out_idx + 1))
                (Datatypes.S drawn) out'
          end
      else Ok (out, drawn)
  end.

(** [rspamd_language_detector_random_select].  [offsets_out] is [None] for
    a [NULL] pointer and otherwise the caller's array with whatever it
    holds on entry.  [out_idx] is still [0] when the loop starts. *)
Definition rspamd_language_detector_random_select
    (ucs_tokens : list rspamd_stat_token_t) (nwords : Z)
    (offsets_out : option (list Z)) (coins : nat -> Z) (drawn : nat)
  : outcome (list Z * nat) :=
  if decide (nwords = 0) then AssertFailed
  else match offsets_out with
  | None => AssertFailed
  | Some out =>
    if decide (ptr_array_len ucs_tokens < nwords) then AssertFailed
    else
      let step_len := ptr_array_len ucs_tokens / nwords in
      let remainder := ptr_array_len ucs_tokens mod nwords in
      let out_idx := 0 in
      let coin := u64 (coins drawn) in
      if decide (u32 (step_len + remainder) = 0) then Fault
      else
        let sel := coin mod u32 (step_len + remainder) in
        match offsets_store out out_idx sel with
        | None => Fault
        | Some out1 =>
            random_select_loop
              (Datatypes.S (Z.to_nat (ptr_array_len ucs_tokens))) coins
              (ptr_array_len ucs_tokens) step_len
              (u32 (step_len + remainder)) out_idx (Datatypes.S drawn) out1
        end
  end.

(** ** Language profiles and candidates *)

(** [struct rspamd_language_elt]; a [GHashTable] keyed by the first one, two
    or three [UChar] of the key buffer is a finite map from those
    characters to the stored frequency. *)
Record rspamd_language_elt : Type := mk_elt {
  name : string;
  unigramms_total : Z;
  unigramms : gmap (list UChar) Z;
  bigramms_total : Z;
  bigramms : gmap (list UChar) Z;
  trigramms_total : Z;
  trigramms : gmap (list UChar) Z
}.

(** [struct rspamd_lang_detector]; the converter handle plays no part in
    the functions below. *)
Record rspamd_lang_detector : Type := mk_detector {
  languages : list rspamd_language_elt;
  short_text_limit : Z
}.

(** Modelled from the spec: [struct rspamd_lang_detector_res] is declared in
    the header, which is not part of this file.  The spec gives a candidate
    a back-reference to its profile and a score that is the running sum of
    matched n-gram counts; the score is carried as an integer. *)
Record rspamd_lang_detector_res : Type := mk_res {
  prob : Z;
  lang : string;
  elt : rspamd_language_elt
}.

(** The [switch (type)] that selects the table. *)
Definition ngramms_of (e : rspamd_language_elt)
    (type : rspamd_language_gramm_type) : gmap (list UChar) Z :=
  match type with
  | rs_unigramm => unigramms e
  | rs_bigramm => bigramms e
  | rs_trigramm => trigramms e
  end.

(** [GPOINTER_TO_UINT (g_hash_table_lookup (ngramms, window))]: a missing
    key gives [NULL], which reads as [0]. *)
Definition ngramm_freq (e : rspamd_language_elt)
    (type : rspamd_language_gramm_type) (window : list UChar) : Z :=
  u32 (default 0 (ngramms_of e type !! take (Z.to_nat (wlen_of type)) window)).

(** [cand->prob += freq] *)
Definition cand_add (cand : rspamd_lang_detector_res) (freq : Z)
  : rspamd_lang_detector_res :=
  mk_res (prob cand + freq) (lang cand) (elt cand).

(** One round of the loop of [rspamd_language_detector_process_ngramm_full].
    When the lookup misses, a candidate is allocated and filled in; the
    function has no [g_hash_table_insert], so the table is left as it was. *)
Definition process_ngramm_full_step (window : list UChar)
    (type : rspamd_language_gramm_type)
    (candidates : gmap string rspamd_lang_detector_res)
    (e : rspamd_language_elt) : gmap string rspamd_lang_detector_res :=
  let freq := ngramm_freq e type window in
  match candidates !! name e with
  | None =>
      let cand := mk_res freq (name e) e in
      candidates
  | Some cand => <[name e := cand_add cand freq]> candidates
  end.

(** [rspamd_language_detector_process_ngramm_full] *)
Definition rspamd_language_detector_process_ngramm_full
    (d : rspamd_lang_detector) (window : list UChar)
    (type : rspamd_language_gramm_type)
    (candidates : gmap string rspamd_lang_detector_res)
  : gmap string rspamd_lang_detector_res :=
  foldl (process_ngramm_full_step window type) candidates (languages d).

(** One round of the iteration over the candidate table in
    [rspamd_language_detector_process_ngramm_update]; [total_freq] is a
    [guint]. *)
Definition process_ngramm_update_step (window : list UChar)
    (type : rspamd_language_gramm_type)
    (st : gmap string rspamd_lang_detector_res * Z)
    (kv : string * rspamd_lang_detector_res)
  : gmap string rspamd_lang_detector_res * Z :=
  let freq := ngramm_freq (elt kv.2) type window in
  (<[kv.1 := cand_add kv.2 freq]> st.1, u32 (st.2 + freq)).

(** [rspamd_language_detector_process_ngramm_update] *)
Definition rspamd_language_detector_process_ngramm_update
    (d : rspamd_lang_detector) (window : list UChar)
    (type : rspamd_language_gramm_type)
    (candidates : gmap string rspamd_lang_detector_res)
  : gmap string rspamd_lang_detector_res :=
  let st := foldl (process_ngramm_update_step window type) (candidates, 0)
                  (map_to_list candidates) in
  if decide (st.2 = 0)
  then rspamd_language_detector_process_ngramm_full d window type st.1
  else st.1.

(** [rspamd_language_detector_detect_word]: the walk over the windows of
    one token.  The loop body is empty, so no window is handed to either
    scan and the candidate table comes back as it went in
    ([rspamd_language_detector_update_guess] has the same body).  [None] is
    a fault during the walk. *)
Definition rspamd_language_detector_detect_word (d : rspamd_lang_detector)
    (tok : rspamd_stat_token_t) (window : list UChar)
    (candidates : gmap string rspamd_lang_detector_res)
    (type : rspamd_language_gramm_type)
  : option (gmap string rspamd_lang_detector_res) :=
  _ ← token_windows tok window type; Some candidates.

(** ** The entry point *)

(** How a call of a function with a non-[void] return type ends: through a
    [return] statement, or by reaching the closing brace, in which case the
    caller receives no defined value. *)
Inductive c_return (A : Type) : Type :=
  | Returned (a : A)
  | NoReturnStatement.
Arguments Returned {A} a.
Arguments NoReturnStatement {A}.

(** What one call of the entry point did: the gram orders it ran the scorer
    for, in call order, and how it ended ([Returned None] would be a [NULL]
    result, [Returned (Some l)] a language name). *)
Record detect_run : Type := mk_run {
  phases_run : list rspamd_language_gramm_type;
  detect_result : c_return (option string)
}.

(** [rspamd_language_detector_detect].  The body is one conditional whose
    branch holds only a comment ("For short text, start directly from
    trigramms"), followed by a second comment ("Start with unigramms"):
    no scorer call and no [return]. *)
Definition rspamd_language_detector_detect (d : rspamd_lang_detector)
    (ucs_tokens : list rspamd_stat_token_t) (words_len : Z) : detect_run :=
  let phases :=
    if decide (u64 words_len < u64 (short_text_limit d))
    then []
    else [] in
  mk_run phases NoReturnStatement.

(** [w] consecutive elements of a list from position [k]. *)
Definition slice (k w : Z) (l : list UChar) : list UChar :=
  take (Z.to_nat w) (drop (Z.to_nat k) l).

(** ** Constants and sample inputs *)

Definition default_short_text_limit : Z := 200.
Definition default_words : Z := 20.

(** The word "abc" as the converter stores it: three characters and the
    terminator. *)
Definition tok_abc : rspamd_stat_token_t := mk_token [97; 98; 99; 0] 3.

(** The word "tent". *)
Definition tok_tent : rspamd_stat_token_t :=
  mk_token [116; 101; 110; 116; 0] 4.

(** An array of five words. *)
Definition five_tokens : list rspamd_stat_token_t := replicate 5 tok_abc.

(** Two small profiles: "en" with unigrams e:10, n:5, t:8 and "xx" with
    e:1, n:1, t:1. *)
Definition lang_en : rspamd_language_elt :=
  mk_elt "en" 23 (list_to_map [([101], 10); ([110], 5); ([116], 8)]) 0 ∅ 0 ∅.

Definition lang_xx : rspamd_language_elt :=
  mk_elt "xx" 3 (list_to_map [([101], 1); ([110], 1); ([116], 1)]) 0 ∅ 0 ∅.

Definition toy_detector : rspamd_lang_detector :=
  mk_detector [lang_en; lang_xx] default_short_text_limit.

(** A window buffer holding the single character "e". *)
Definition window_e : list UChar := [101; 0; 0].



(** What an update scan adds to one candidate: the count found in the map
    of the candidate's own profile. *)
Definition bump (window : list UChar) (type : rspamd_language_gramm_type)
    (cand : rspamd_lang_detector_res) : rspamd_lang_detector_res :=
  cand_add cand (ngramm_freq (elt cand) type window).

(** The sum of the counts an update scan retrieves, before it is reduced
    to a [guint]. *)
Definition candidates_freq_sum (window : list UChar)
    (type : rspamd_language_gramm_type)
    (l : list (string * rspamd_lang_detector_res)) : Z :=
  foldr (λ kv acc, ngramm_freq (elt kv.2) type window + acc) 0 l.

(** What a full scan over the profiles [es] adds to the candidate stored
    under [key]: the counts of the profiles that carry that name. *)
Definition scan_gain (window : list UChar)
    (type : rspamd_language_gramm_type) (key : string)
    (es : list rspamd_language_elt) : Z :=
  foldr (λ e acc,
           (if decide (name e = key) then ngramm_freq e type window else 0)
           + acc) 0 es.

(** ** Keys of the frequency tables *)

(** [sizeof (UChar)] *)
Definition sizeof_UChar : Z := 2.

(** The two bytes a [UChar] occupies in memory, low byte first.  The
    functions below only compare and hash whole keys, so the byte order
    does not show in their results. *)
Definition uchar_bytes (c : UChar) : list Z := [c mod 256; c / 256 mod 256].

(** The memory behind a key pointer that addresses the characters [key]. *)
Definition key_bytes (key : list UChar) : list Z :=
  mbind uchar_bytes key.

(** [memcmp (s1, s2, n)]: the difference of the first pair of bytes that
    differ among the first [n], [0] when there is none; reading past either
    block is a fault. *)
Fixpoint memcmp (s1 s2 : list Z) (n : nat) {struct n} : option Z :=
  match n with
  | O => Some 0
  | Datatypes.S n' =>
      match s1, s2 with
      | b1 :: r1, b2 :: r2 =>
          if decide (b1 = b2) then memcmp r1 r2 n' else Some (b1 - b2)
      | _, _ => None
      end
  end.

(** [rspamd_unigram_equal], [rspamd_bigram_equal], [rspamd_trigram_equal]:
    [memcmp (v, v2, k * sizeof (UChar)) == 0] with [k] one, two and three. *)
Definition rspamd_unigram_equal (v v2 : list UChar) : option bool :=
  r ← memcmp (key_bytes v) (key_bytes v2) (Z.to_nat sizeof_UChar);
  Some (bool_decide (r = 0)).

Definition rspamd_bigram_equal (v v2 : list UChar) : option bool :=
  r ← memcmp (key_bytes v) (key_bytes v2) (Z.to_nat (2 * sizeof_UChar));
  Some (bool_decide (r = 0)).

Definition rspamd_trigram_equal (v v2 : list UChar) : option bool :=
  r ← memcmp (key_bytes v) (key_bytes v2) (Z.to_nat (3 * sizeof_UChar));
  Some (bool_decide (r = 0)).

(** [rspamd_unigram_hash], [rspamd_bigram_hash], [rspamd_trigram_hash]:
    [rspamd_cryptobox_fast_hash (key, k * sizeof (UChar), rspamd_hash_seed ())].
    The hash function and the seed are declared elsewhere; the hash function
    is given the bytes it is allowed to read. *)
Definition rspamd_unigram_hash (fast_hash : list Z -> Z -> Z) (seed : Z)
    (key : list UChar) : Z :=
  u32 (fast_hash (take (Z.to_nat sizeof_UChar) (key_bytes key)) seed).

Definition rspamd_bigram_hash (fast_hash : list Z -> Z -> Z) (seed : Z)
    (key : list UChar) : Z :=
  u32 (fast_hash (take (Z.to_nat (2 * sizeof_UChar)) (key_bytes key)) seed).

Definition rspamd_trigram_hash (fast_hash : list Z -> Z -> Z) (seed : Z)
    (key : list UChar) : Z :=
  u32 (fast_hash (take (Z.to_nat (3 * sizeof_UChar)) (key_bytes key)) seed).

(** The equality and the hash function of the table of one gram order, as
    [rspamd_language_detector_read_file] pairs them in [g_hash_table_new]. *)
Definition ngramm_equal (type : rspamd_language_gramm_type)
  : list UChar -> list UChar -> option bool :=
  match type with
  | rs_unigramm => rspamd_unigram_equal
  | rs_bigramm => rspamd_bigram_equal
  | rs_trigramm => rspamd_trigram_equal
  end.

Definition ngramm_hash (type : rspamd_language_gramm_type)
  : (list Z -> Z -> Z) -> Z -> list UChar -> Z :=
  match type with
  | rs_unigramm => rspamd_unigram_hash
  | rs_bigramm => rspamd_bigram_hash
  | rs_trigramm => rspamd_trigram_hash
  end.

(** A character that fits the sixteen bits of a [UChar]. *)
Definition is_UChar (c : UChar) : Prop := 0 <= c < 65536.

(** ** Loading the profiles *)

(** [strrchr (s, c)] followed by [pos + 1]: what follows the last [c] of
    [s]; [None] when [strrchr] gives [NULL]. *)
Fixpoint after_last (c : ascii) (s : string) : option string :=
  match s with
  | EmptyString => None
  | String a s' =>
      match after_last c s' with
      | Some r => Some r
      | None => if decide (a = c) then Some s' else None
      end
  end.

(** [strchr (s, c)] followed by [*pos = '\0']: what precedes the first [c]
    of [s]; [None] when [strchr] gives [NULL]. *)
Fixpoint before_first (c : ascii) (s : string) : option string :=
  match s with
  | EmptyString => None
  | String a s' =>
      if decide (a = c) then Some EmptyString
      else String a <$> before_first c s'
  end.

(** Whether a character occurs in a string. *)
Fixpoint occurs (c : ascii) (s : string) : bool :=
  match s with
  | EmptyString => false
  | String a s' => bool_decide (a = c) || occurs c s'
  end.

(** The name [rspamd_language_detector_read_file] gives a profile: the
    part of the path after the last slash, cut at its first dot; each of the
    two searches is followed by a [g_assert] on its result. *)
Definition language_name_of_path (path : string) : outcome string :=
  match after_last "/"%char path with
  | None => AssertFailed
  | Some base =>
      match before_first "."%char base with
      | None => AssertFailed
      | Some nm => Ok nm
      end
  end.

(** One member of the "freq" object as the iterator hands it over: the key
    as [ucl_object_keyl] gives it ([None] for [NULL], otherwise its bytes)
    and the value as [ucl_object_toint] gives it. *)
Record ucl_freq_entry : Type := mk_entry {
  ucl_key : option (list Z);
  ucl_int : Z
}.

(** What the parser makes of a file: no object at all, or a top object with
    or without a "freq" member. *)
Inductive ucl_file : Type :=
  | ucl_unparsable
  | ucl_top (freq : option (list ucl_freq_entry)).

(** [g_hash_table_insert (table, ucs_key, GUINT_TO_POINTER (freq))] on the
    table of one gram order followed by [total += freq] on its counter.  The
    table sees the first one, two or three characters of [ucs_key]. *)
Definition elt_insert (nelt : rspamd_language_elt)
    (type : rspamd_language_gramm_type) (ucs_key : list UChar) (freq : Z)
  : rspamd_language_elt :=
  let key := take (Z.to_nat (wlen_of type)) ucs_key in
  match type with
  | rs_unigramm =>
      mk_elt (name nelt)
        (u32 (unigramms_total nelt + freq)) (<[key := freq]> (unigramms nelt))
        (bigramms_total nelt) (bigramms nelt)
        (trigramms_total nelt) (trigramms nelt)
  | rs_bigramm =>
      mk_elt (name nelt)
        (unigramms_total nelt) (unigramms nelt)
        (u32 (bigramms_total nelt + freq)) (<[key := freq]> (bigramms nelt))
        (trigramms_total nelt) (trigramms nelt)
  | rs_trigramm =>
      mk_elt (name nelt)
        (unigramms_total nelt) (unigramms nelt)
        (bigramms_total nelt) (bigramms nelt)
        (u32 (trigramms_total nelt + freq)) (<[key := freq]> (trigramms nelt))
  end.

(** One round of the [while] loop of [rspamd_language_detector_read_file].
    The state is the profile under construction and [uc_err].
    [ucnv_toUChars] stands for the converter call: from the key bytes and
    the error code on entry it gives the returned length, the characters
    written to [ucs_key] and the error code on exit. *)
Definition read_file_entry (ucnv_toUChars : list Z -> Z -> Z * list UChar * Z)
    (st : rspamd_language_elt * Z) (cur : ucl_freq_entry)
  : rspamd_language_elt * Z :=
  let freq := u32 (ucl_int cur) in
  match ucl_key cur with
  | None => st
  | Some key =>
      let '(ret, ucs_key, uc_err) := ucnv_toUChars key st.2 in
      let nsym := u32 ret in
      if decide (uc_err <> 0) then (st.1, uc_err)
      else if decide (nsym = 2) then
        (elt_insert st.1 rs_bigramm ucs_key freq, uc_err)
      else if decide (nsym = 3) then
        (elt_insert st.1 rs_trigramm ucs_key freq, uc_err)
      else if decide (nsym = 1) then
        (elt_insert st.1 rs_unigramm ucs_key freq, uc_err)
      else (st.1, uc_err)
  end.

(** The profile the loop builds from the members of "freq", starting from
    empty tables, zero counters and [U_ZERO_ERROR]. *)
Definition read_file_profile (ucnv_toUChars : list Z -> Z -> Z * list UChar * Z)
    (nm : string) (entries : list ucl_freq_entry) : rspamd_language_elt * Z :=
  foldl (read_file_entry ucnv_toUChars) (mk_elt nm 0 ∅ 0 ∅ 0 ∅, 0) entries.

(** [rspamd_language_detector_read_file]: a file that does not parse or has
    no "freq" member leaves the detector as it is; otherwise the profile is
    named after the path and appended to [d->languages]. *)
Definition rspamd_language_detector_read_file
    (ucnv_toUChars : list Z -> Z -> Z * list UChar * Z)
    (d : rspamd_lang_detector) (path : string) (file : ucl_file)
  : outcome rspamd_lang_detector :=
  match file with
  | ucl_unparsable => Ok d
  | ucl_top None => Ok d
  | ucl_top (Some entries) =>
      match language_name_of_path path with
      | Ok nm =>
          let nelt := (read_file_profile ucnv_toUChars nm entries).1 in
          Ok (mk_detector (languages d ++ [nelt]) (short_text_limit d))
      | _ => AssertFailed
      end
  end.

(** The "lang_detection" section of the configuration: its "languages"
    member as a string and its "short_text_limit" member as an integer,
    each [None] when the lookup gives [NULL]. *)
Record lang_detection_section : Type := mk_section {
  sec_languages : option string;
  sec_short_text_limit : option Z
}.

(** The loop of [rspamd_language_detector_init] over [gl.gl_pathv];
    [files] stands for what the parser finds at each path. *)
Fixpoint read_files (ucnv_toUChars : list Z -> Z -> Z * list UChar * Z)
    (files : string -> ucl_file) (d : rspamd_lang_detector)
    (paths : list string) : outcome rspamd_lang_detector :=
  match paths with
  | [] => Ok d
  | path :: rest =>
      match rspamd_language_detector_read_file ucnv_toUChars d path
              (files path) with
      | Ok d' => read_files ucnv_toUChars files d' rest
      | other => other
      end
  end.

(** [rspamd_language_detector_init].  [plugins_dir] is the macro
    [RSPAMD_PLUGINSDIR]; [glob] gives the matched paths, or [None] when the
    call returns non-zero; [open_err] is the error code [ucnv_open] leaves.
    The result is [None] for a [NULL] detector. *)
Definition rspamd_language_detector_init (plugins_dir : string)
    (ucnv_toUChars : list Z -> Z -> Z * list UChar * Z) (open_err : Z)
    (glob : string -> option (list string)) (files : string -> ucl_file)
    (section : option lang_detection_section)
  : outcome (option rspamd_lang_detector) :=
  let languages_path :=
    default (plugins_dir +:+ "/languages") (section ≫= sec_languages) in
  let short_text_limit :=
    default default_short_text_limit
      (u64 <$> (section ≫= sec_short_text_limit)) in
  match glob (languages_path +:+ "/*.json") with
  | None => Ok None
  | Some paths =>
      if decide (open_err = 0) then
        match read_files ucnv_toUChars files
                (mk_detector [] short_text_limit) paths with
        | Ok d => Ok (Some d)
        | AssertFailed => AssertFailed
        | Fault => Fault
        | OutOfFuel => OutOfFuel
        end
      else AssertFailed
  end.

(** The counter that goes with the table of one gram order. *)
Definition ngramms_total_of (e : rspamd_language_elt)
    (type : rspamd_language_gramm_type) : Z :=
  match type with
  | rs_unigramm => unigramms_total e
  | rs_bigramm => bigramms_total e
  | rs_trigramm => trigramms_total e
  end.

(** What a member of "freq" contributes to the table of one gram order
    when its key converts without error: the key as the table sees it and
    the frequency as stored, if the converted key has that many
    characters. *)
Definition entry_gram (ucnv_toUChars : list Z -> Z -> Z * list UChar * Z)
    (type : rspamd_language_gramm_type) (cur : ucl_freq_entry)
  : option (list UChar * Z) :=
  key ← ucl_key cur;
  if decide (u32 (ucnv_toUChars key 0).1.1 = wlen_of type)
  then Some (take (Z.to_nat (wlen_of type)) (ucnv_toUChars key 0).1.2,
             u32 (ucl_int cur))
  else None.

(** What one contribution does to a table and to its counter. *)
Definition gram_insert (g : option (list UChar * Z))
    (m : gmap (list UChar) Z) : gmap (list UChar) Z :=
  match g with
  | Some kv => <[kv.1 := kv.2]> m
  | None => m
  end.

Definition gram_count (g : option (list UChar * Z)) (total : Z) : Z :=
  match g with
  | Some kv => u32 (total + kv.2)
  | None => total
  end.

(** The contributions of a whole "freq" object to one table, in file
    order. *)
Definition converted_grams (ucnv_toUChars : list Z -> Z -> Z * list UChar * Z)
    (type : rspamd_language_gramm_type) (entries : list ucl_freq_entry)
  : list (list UChar * Z) :=
  omap (entry_gram ucnv_toUChars type) entries.

(** The sum of the frequencies of a list of contributions, and of the
    values of a table. *)
Definition sum_freqs (l : list (list UChar * Z)) : Z :=
  foldr (λ kv acc, kv.2 + acc) 0 l.

Definition table_sum (m : gmap (list UChar) Z) : Z :=
  map_fold (λ _ v acc, v + acc) 0 m.

(** Whether a file gives a profile: it parses and has a "freq" member. *)
Definition has_freq (file : ucl_file) : bool :=
  match file with
  | ucl_top (Some _) => true
  | _ => false
  end.

(** ** Converting a token *)

(** [rspamd_language_detector_to_ucs].  The [flags] field, which the token
    record above does not carry, travels beside each token.
    [ucnv_toUChars] stands for the converter call on the bytes of the token
    with the capacity of the output buffer: it gives the returned length (an
    [int32_t]) and the contents of the buffer afterwards.  When the
    returned length is negative only [len] of the output token is set. *)
Definition rspamd_language_detector_to_ucs
    (ucnv_toUChars : rspamd_stat_token_t -> Z -> Z * list UChar)
    (utf_token ucs_token : Z * rspamd_stat_token_t)
  : Z * rspamd_stat_token_t :=
  let '(nsym, out) := ucnv_toUChars utf_token.2 (len utf_token.2 + 1) in
  (utf_token.1,
   if decide (0 <= nsym) then mk_token out nsym
   else mk_token (begin ucs_token.2) 0).

(** A converter for tokens of seven-bit characters: one character per
    byte, then a terminator, in a buffer of the given capacity. *)
Definition sample_tok_ucnv (tok : rspamd_stat_token_t) (capacity : Z)
  : Z * list UChar :=
  (len tok,
   take (Z.to_nat capacity)
     (take (Z.to_nat (len tok)) (begin tok)
      ++ replicate (Z.to_nat capacity) 0)).

(** ** Sample inputs for the loader *)

(** A converter for keys of seven-bit characters: one character per byte
    and a terminator; a byte above 127 gives error code 10, and a call
    entered with an error code set does nothing. *)
Definition sample_ucnv (key : list Z) (uc_err : Z) : Z * list UChar * Z :=
  if decide (uc_err = 0) then
    if decide (Forall (λ b, b < 128) key)
    then (Z.of_nat (length key), key ++ [0], 0)
    else (0, [0], 10)
  else (0, [], uc_err).

(** The members e:10, th:7, the:5, n:5 of a "freq" object. *)
Definition sample_entries : list ucl_freq_entry :=
  [mk_entry (Some [101]) 10; mk_entry (Some [116; 104]) 7;
   mk_entry (Some [116; 104; 101]) 5; mk_entry (Some [110]) 5].

(** A directory with three files: one that does not parse, one with the
    members above and one without "freq". *)
Definition sample_files (path : string) : ucl_file :=
  if decide (path = "/l/bad.json") then ucl_unparsable
  else if decide (path = "/l/en.json") then ucl_top (Some sample_entries)
  else ucl_top None.

Definition sample_glob (pattern : string) : option (list string) :=
  if decide (pattern = "/l/*.json")
  then Some ["/l/bad.json"; "/l/en.json"; "/l/xx.json"]
  else None.

Definition sample_section : option lang_detection_section :=
  Some (mk_section (Some "/l") (Some 50)).

(** A byte hash for the examples: the seed plus the bytes. *)
Definition sample_hash (bytes : list Z) (seed : Z) : Z :=
  foldr Z.add seed bytes.

(** ** Properties of the window walk *)

Section WindowWalk.

Lemma u64_small z : 0 <= z < 2 ^ 64 -> u64 z = z.
Proof. intros H. unfold u64. by rewrite Z.mod_small. Qed.

Lemma u32_small z : 0 <= z < 2 ^ 32 -> u32 z = z.
Proof. intros H. unfold u32. by rewrite Z.mod_small. Qed.

Lemma u64_nonneg z : 0 <= u64 z.
Proof. unfold u64. apply Z.mod_pos_bound. lia. Qed.

Lemma u32_nonneg z : 0 <= u32 z.
Proof. unfold u32. apply Z.mod_pos_bound. lia. Qed.

Lemma tok_load_drop tok cur i x :
  0 <= cur -> 0 <= i ->
  drop (Z.to_nat cur) (begin tok) !! Z.to_nat i = Some x ->
  tok_load tok (cur + i) = Some x.
Proof.
  intros Hc Hi Hx. unfold tok_load. rewrite decide_True by lia.
  rewrite lookup_drop in Hx. by rewrite Z2Nat.inj_add.
Qed.

Lemma window_store_0 a l v : window_store (a :: l) 0 v = Some (v :: l).
Proof.
  unfold window_store. rewrite decide_True; [done |].
  rewrite length_cons. lia.
Qed.

Lemma window_store_1 a b l v :
  window_store (a :: b :: l) 1 v = Some (a :: v :: l).
Proof.
  unfold window_store. rewrite decide_True; [done |].
  rewrite !length_cons. lia.
Qed.

Lemma window_store_2 a b c l v :
  window_store (a :: b :: c :: l) 2 v = Some (a :: b :: v :: l).
Proof.
  unfold window_store. rewrite decide_True; [done |].
  rewrite !length_cons. lia.
Qed.

(** Unrolls the copy loops for a window of two or three characters and
    replays the loads and stores recorded in the context. *)
Ltac unroll_copies :=
  change (Z.to_nat 3) with 3%nat; change (Z.to_nat (3 - 1)) with 2%nat;
  change (Z.to_nat 2) with 2%nat; change (Z.to_nat (2 - 1)) with 1%nat;
  cbn [for_loop];
  change (3 - 1) with 2; change (2 - 1) with 1;
  change (0 + 1 + 1) with 2; change (0 + 1) with 1;
  repeat (first
    [ match goal with H : tok_load _ _ = Some _ |- _ => rewrite H end
    | rewrite window_store_0 | rewrite window_store_1
    | rewrite window_store_2 ];
    cbn [mbind option_bind]).

(** A call at an offset where a window is produced: offset [0], or any
    offset up to the one that reaches the position just past the token.
    The window ends up holding the storage elements from that offset. *)
Lemma next_ngramm_emit tok window wlen cur :
  wlen = 2 \/ wlen = 3 ->
  length window = 3%nat ->
  0 <= cur -> len tok < 2 ^ 63 -> 0 <= len tok ->
  cur + wlen <= Z.of_nat (length (begin tok)) ->
  cur = 0 \/ cur + wlen <= len tok + 1 ->
  exists window',
    rspamd_language_detector_next_ngramm tok window wlen cur
      = Some (window', cur + 1)
    /\ length window' = 3%nat
    /\ take (Z.to_nat wlen) window' = slice cur wlen (begin tok).
Proof.
  intros Hw Hlen Hcur Hmax Hmin Hsto Hpos.
  destruct window as [|a [|b [|c [|? ?]]]]; try discriminate Hlen.
  assert (Hd : (Z.to_nat wlen <= length (drop (Z.to_nat cur) (begin tok)))%nat)
    by (rewrite length_drop; lia).
  unfold slice.
  destruct (drop (Z.to_nat cur) (begin tok)) as [|x0 [|x1 rest]] eqn:Edrop;
    [simpl in Hd; lia | simpl in Hd; lia |].
  assert (L0 : tok_load tok (cur + 0) = Some x0)
    by (apply tok_load_drop; [lia | lia | by rewrite Edrop]).
  assert (L1 : tok_load tok (cur + 1) = Some x1)
    by (apply tok_load_drop; [lia | lia | by rewrite Edrop]).
  unfold rspamd_language_detector_next_ngramm.
  rewrite decide_True by lia.
  destruct Hw as [-> | ->].
  - destruct (decide (cur = 0)) as [-> | Hne].
    + change (0 + 0) with 0 in L0. change (0 + 1) with 1 in L1.
      unroll_copies. change (0 + 0) with 0. change (0 + 2) with 2.
      unroll_copies. eexists; split; [reflexivity | split; reflexivity].
    + assert (Hle : cur + 2 <= len tok + 1) by lia.
      rewrite !u64_small by lia.
      destruct (decide (cur + 2 = len tok + 1)).
      * unroll_copies. eexists; split; [reflexivity | split; reflexivity].
      * rewrite decide_False by lia. unroll_copies. eexists; split; [reflexivity | split; reflexivity].
  - destruct rest as [|x2 rest]; [simpl in Hd; lia |].
    assert (L2 : tok_load tok (cur + 2) = Some x2)
      by (apply tok_load_drop; [lia | lia | by rewrite Edrop]).
    destruct (decide (cur = 0)) as [-> | Hne].
    + change (0 + 0) with 0 in L0. change (0 + 1) with 1 in L1.
      change (0 + 2) with 2 in L2.
      unroll_copies. change (0 + 0) with 0. change (0 + 2) with 2.
      unroll_copies. eexists; split; [reflexivity | split; reflexivity].
    + assert (Hle : cur + 3 <= len tok + 1) by lia.
      rewrite !u64_small by lia.
      destruct (decide (cur + 3 = len tok + 1)).
      * unroll_copies. eexists; split; [reflexivity | split; reflexivity].
      * rewrite decide_False by lia. unroll_copies. eexists; split; [reflexivity | split; reflexivity].
Qed.

(** A call at a later offset whose window would run past the position
    after the token ends the walk and leaves the window alone. *)
Lemma next_ngramm_stop tok window wlen cur :
  1 < wlen -> 0 < cur -> 0 <= len tok ->
  len tok + 1 < cur + wlen -> cur + wlen < 2 ^ 64 ->
  rspamd_language_detector_next_ngramm tok window wlen cur
    = Some (window, -1).
Proof.
  intros Hw Hcur Hmin Hpast Hmax.
  unfold rspamd_language_detector_next_ngramm.
  rewrite decide_True by lia. rewrite decide_False by lia.
  rewrite !u64_small by lia.
  rewrite decide_False by lia. by rewrite decide_True by lia.
Qed.

(** The walk from an offset [cur >= 1] with [n] windows still to come. *)
Lemma ngramm_walk_from tok wlen (n : nat) :
  wlen = 2 \/ wlen = 3 ->
  0 <= len tok < 2 ^ 63 ->
  len tok + 1 <= Z.of_nat (length (begin tok)) ->
  forall (fuel : nat) (window : list UChar) (cur : Z),
    length window = 3%nat ->
    1 <= cur ->
    Z.of_nat n = Z.max 0 (len tok + 2 - wlen - cur) ->
    cur <= Z.max 1 (len tok + 2 - wlen) ->
    (n < fuel)%nat ->
    ngramm_walk fuel tok window wlen cur
      = Some ((λ k, (k, slice k wlen (begin tok))) <$> seqZ cur (Z.of_nat n)).
Proof.
  intros Hw Hlen Hsto.
  induction n as [|n IH]; intros fuel window cur Hwin Hcur Hn Hub Hfuel.
  - destruct fuel as [|fuel]; [lia |].
    cbn [ngramm_walk].
    rewrite next_ngramm_stop by lia.
    cbn [mbind option_bind]. by rewrite decide_True.
  - destruct fuel as [|fuel]; [lia |].
    cbn [ngramm_walk].
    destruct (next_ngramm_emit tok window wlen cur)
      as (window' & -> & Hwin' & Htake); try lia.
    cbn [mbind option_bind]. rewrite decide_False by lia.
    rewrite (IH fuel window' (cur + 1)) by lia.
    cbn [mbind option_bind].
    rewrite (seqZ_cons cur) by lia. rewrite fmap_cons, Htake.
    replace (Z.succ cur) with (cur + 1) by lia.
    by replace (Z.pred (Z.of_nat (Datatypes.S n))) with (Z.of_nat n) by lia.
Qed.

(** The windows of a token for gram orders two and three, in full: one
    call per offset from [0], each leaving the storage elements from that
    offset in the window. *)
Lemma token_windows_walk tok window type :
  type = rs_bigramm \/ type = rs_trigramm ->
  length window = 3%nat ->
  0 <= len tok < 2 ^ 63 ->
  Z.max (wlen_of type) (len tok + 1) <= Z.of_nat (length (begin tok)) ->
  token_windows tok window type
    = Some ((λ k, (k, slice k (wlen_of type) (begin tok)))
              <$> seqZ 0 (Z.max 1 (len tok + 2 - wlen_of type))).
Proof.
  intros Hty Hwin Hlen Hsto.
  assert (Hw : wlen_of type = 2 \/ wlen_of type = 3)
    by (destruct Hty as [-> | ->]; [by left | by right]).
  unfold token_windows.
  replace (Z.to_nat (len tok) + 2)%nat
    with (Datatypes.S (Z.to_nat (len tok + 1))) by lia.
  cbn [ngramm_walk].
  destruct (next_ngramm_emit tok window (wlen_of type) 0)
    as (window' & -> & Hwin' & Htake); try lia.
  cbn [mbind option_bind]. rewrite decide_False by lia.
  rewrite (ngramm_walk_from tok (wlen_of type)
             (Z.to_nat (Z.max 0 (len tok + 1 - wlen_of type)))) by lia.
  cbn [mbind option_bind].
  rewrite (seqZ_cons 0) by lia. rewrite fmap_cons, Htake.
  change (Z.succ 0) with (0 + 1).
  by replace (Z.pred (Z.max 1 (len tok + 2 - wlen_of type)))
    with (Z.of_nat (Z.to_nat (Z.max 0 (len tok + 1 - wlen_of type)))) by lia.
Qed.

(** C3: with a window size of one the first call already returns [-1],
    whatever the token: the walk produces no window at all. *)
Theorem unigram_walk_emits_nothing tok window :
  token_windows tok window rs_unigramm = Some [].
Proof.
  unfold token_windows.
  replace (Z.to_nat (len tok) + 2)%nat
    with (Datatypes.S (Z.to_nat (len tok) + 1)) by lia.
  cbn [ngramm_walk wlen_of].
  unfold rspamd_language_detector_next_ngramm.
  rewrite decide_False by lia.
  rewrite decide_True by (rewrite (u64_small 0) by lia; apply u64_nonneg).
  cbn [mbind option_bind]. by rewrite decide_True.
Qed.

End WindowWalk.

(** ** Properties of the sampler *)

Section Sampler.

Lemma s64_small z : 0 <= z < 2 ^ 63 -> s64 z = z.
Proof. intros H. unfold s64. rewrite Z.mod_small; lia. Qed.

Lemma offsets_store_ok out idx sel :
  0 <= idx < Z.of_nat (length out) ->
  offsets_store out idx sel = Some (<[Z.to_nat idx := s64 sel]> out).
Proof. intros H. unfold offsets_store. by rewrite decide_True. Qed.

(** The loop with [m] partitions still ahead: it makes [m] draws and [m]
    stores, and stops when [i] reaches the length of the array. *)
Lemma random_select_loop_ok coins n step (m : nat) :
  1 <= step -> n < 2 ^ 32 ->
  forall fuel i idx drawn out,
    0 <= i -> i + Z.of_nat m * step = n ->
    0 <= idx -> idx + Z.of_nat m <= Z.of_nat (length out) ->
    idx + Z.of_nat m < 2 ^ 32 ->
    (m < fuel)%nat ->
    exists out',
      random_select_loop fuel coins n step i idx drawn out
        = Ok (out', (drawn + m)%nat)
      /\ length out' = length out.
Proof.
  intros Hstep Hn.
  induction m as [|m IH]; intros fuel i idx drawn out Hi Hsum Hidx Hroom Hmax Hf;
    (destruct fuel as [|fuel]; [lia |]); cbn [random_select_loop].
  - rewrite decide_False by lia. exists out. by rewrite Nat.add_0_r.
  - rewrite decide_True by nia. rewrite decide_False by lia.
    rewrite offsets_store_ok by lia.
    rewrite (u32_small (i + step)) by nia.
    rewrite (u32_small (idx + 1)) by lia.
    destruct (IH fuel (i + step) (idx + 1) (Datatypes.S drawn)
                (<[Z.to_nat idx := s64 (u64 (u64 (coins drawn) mod step + i))]> out))
      as (out' & -> & Hlen'); try lia.
    + rewrite length_insert. lia.
    + exists out'. rewrite Hlen', length_insert.
      split; [do 2 f_equal; lia | done].
Qed.

(** With a sample count between one and the number of tokens and an output
    array of at least that many slots the call returns normally. *)
Lemma random_select_ok toks nwords buf coins drawn :
  0 < nwords -> nwords <= ptr_array_len toks -> ptr_array_len toks < 2 ^ 32 ->
  nwords <= Z.of_nat (length buf) ->
  exists buf',
    rspamd_language_detector_random_select toks nwords (Some buf) coins drawn
      = Ok (buf', (drawn + Z.to_nat nwords)%nat)
    /\ length buf' = length buf.
Proof.
  intros Hk HN Hmax Hroom.
  unfold rspamd_language_detector_random_select.
  set (n := ptr_array_len toks) in *.
  assert (Hdm := Z.div_mod n nwords ltac:(lia)).
  assert (Hrem := Z.mod_pos_bound n nwords Hk).
  assert (Hstep : 0 < n / nwords) by (apply Z.div_str_pos; lia).
  rewrite !decide_False by lia.
  rewrite (u32_small (n / nwords + n mod nwords)) by nia.
  rewrite decide_False by lia.
  rewrite offsets_store_ok by lia.
  destruct (random_select_loop_ok coins n (n / nwords) (Z.to_nat (nwords - 1))
              ltac:(lia) Hmax
              (Datatypes.S (Z.to_nat n)) (n / nwords + n mod nwords) 0
              (Datatypes.S drawn)
              (<[Z.to_nat 0 :=
                   s64 (u64 (coins drawn) mod (n / nwords + n mod nwords))]> buf))
    as (buf' & -> & Hlen'); try lia.
  - rewrite Z2Nat.id by lia. nia.
  - rewrite length_insert. lia.
  - exists buf'. rewrite Hlen', length_insert.
    split; [do 2 f_equal; lia | done].
Qed.

(** Where the three assertions stand: the call stops on one exactly when
    the sample count is zero, the output array pointer is [NULL], or there
    are fewer tokens than samples requested; any other call with counts in
    [guint] range and a slot per sample returns normally. *)
Lemma random_select_assert_iff toks nwords offsets_out coins drawn :
  0 <= nwords < 2 ^ 32 ->
  ptr_array_len toks < 2 ^ 32 ->
  (forall buf, offsets_out = Some buf -> nwords <= Z.of_nat (length buf)) ->
  (rspamd_language_detector_random_select toks nwords offsets_out coins drawn
     = AssertFailed
   <-> nwords = 0 \/ offsets_out = None \/ ptr_array_len toks < nwords)
  /\ (~ (nwords = 0 \/ offsets_out = None \/ ptr_array_len toks < nwords) ->
      exists buf' drawn',
        rspamd_language_detector_random_select toks nwords offsets_out
          coins drawn = Ok (buf', drawn')).
Proof.
  intros Hk HN Hroom.
  assert (Hok : ~ (nwords = 0 \/ offsets_out = None
                   \/ ptr_array_len toks < nwords) ->
      exists buf' drawn',
        rspamd_language_detector_random_select toks nwords offsets_out
          coins drawn = Ok (buf', drawn')).
  { intros Hgood. destruct offsets_out as [buf|]; [| tauto].
    destruct (random_select_ok toks nwords buf coins drawn)
      as (buf' & Heq & _); try lia; eauto. }
  split; [split |]; [| | done].
  - intros Hfail.
    destruct (decide (nwords = 0 \/ offsets_out = None
                      \/ ptr_array_len toks < nwords)) as [|Hgood]; [done |].
    destruct (Hok Hgood) as (buf' & drawn' & Heq). congruence.
  - unfold rspamd_language_detector_random_select.
    intros [-> | [-> | Hlt]].
    + done.
    + by case_decide.
    + case_decide; [done |]. destruct offsets_out; [| done].
      by rewrite decide_True.
Qed.

(** C9: given an output array with a slot per sample, the sampler stops on
    an assertion exactly when the sample count is zero or there are fewer
    tokens than samples requested; it never clamps.  For every other pair
    of counts it returns normally. *)
Theorem random_select_fails_iff toks nwords buf coins drawn :
  0 <= nwords < 2 ^ 32 ->
  ptr_array_len toks < 2 ^ 32 ->
  nwords <= Z.of_nat (length buf) ->
  (rspamd_language_detector_random_select toks nwords (Some buf) coins drawn
     = AssertFailed
   <-> nwords = 0 \/ ptr_array_len toks < nwords)
  /\ (~ (nwords = 0 \/ ptr_array_len toks < nwords) ->
      exists buf' drawn',
        rspamd_language_detector_random_select toks nwords (Some buf)
          coins drawn = Ok (buf', drawn')).
Proof.
  intros Hk HN Hroom.
  destruct (random_select_assert_iff toks nwords (Some buf) coins drawn Hk HN)
    as [Hiff Hok]; [by intros ? [= <-] |].
  split.
  - rewrite Hiff. split.
    + intros [H | [H | H]]; [by left | done | by right].
    + intros [H | H]; [by left | by right; right].
  - intros Hgood. apply Hok. intros [H | [H | H]]; [| done |]; tauto.
Qed.

(** C7: five tokens, two samples.  The first store goes to slot [0] and
    the index is not advanced, so the loop's first store lands on slot [0]
    again: the array ends up with one index, taken from the second
    partition [3, 5), in slot [0], and slot [1] still holds what the caller
    left there.  Nothing from the first partition [0, 3) is returned. *)
Theorem random_select_five_two coins drawn v0 v1 :
  exists sel,
    3 <= sel < 5
    /\ rspamd_language_detector_random_select five_tokens 2 (Some [v0; v1])
         coins drawn
       = Ok ([sel; v1], Datatypes.S (Datatypes.S drawn)).
Proof.
  exists (s64 (u64 (u64 (coins (Datatypes.S drawn)) mod 2 + 3))).
  split; [| reflexivity].
  pose proof (Z.mod_pos_bound (u64 (coins (Datatypes.S drawn))) 2 ltac:(lia)).
  rewrite u64_small, s64_small; lia.
Qed.

End Sampler.

(** ** Properties of the two scans *)

Section Scans.

Context (window : list UChar) (type : rspamd_language_gramm_type).

Lemma ngramm_freq_nonneg e : 0 <= ngramm_freq e type window.
Proof. apply u32_nonneg. Qed.

Lemma scan_gain_nonneg key es : 0 <= scan_gain window type key es.
Proof.
  induction es as [|e es IH]; cbn [scan_gain foldr]; [done |].
  fold (scan_gain window type key es).
  case_decide; [pose proof (ngramm_freq_nonneg e) |]; lia.
Qed.

Lemma cand_add_0 cand : cand_add cand 0 = cand.
Proof. destruct cand. unfold cand_add. cbn. by rewrite Z.add_0_r. Qed.

Lemma cand_add_add cand a b :
  cand_add (cand_add cand a) b = cand_add cand (a + b).
Proof. unfold cand_add. cbn. by rewrite Z.add_assoc. Qed.

(** One round of the full scan, seen from one key of the table. *)
Lemma process_ngramm_full_step_lookup
    (candidates : gmap string rspamd_lang_detector_res) e key :
  process_ngramm_full_step window type candidates e !! key
    = (λ cand, cand_add cand
         (if decide (name e = key) then ngramm_freq e type window else 0))
      <$> candidates !! key.
Proof.
  unfold process_ngramm_full_step.
  destruct (decide (name e = key)) as [<- | Hne].
  - destruct (candidates !! name e) as [cand|] eqn:E.
    + by rewrite lookup_insert_eq.
    + by rewrite E.
  - destruct (candidates !! name e) as [cand|] eqn:E.
    + rewrite lookup_insert_ne by done.
      destruct (candidates !! key); cbn; [by rewrite cand_add_0 | done].
    + destruct (candidates !! key); cbn; [by rewrite cand_add_0 | done].
Qed.

Lemma foldl_full_step_lookup es :
  forall (candidates : gmap string rspamd_lang_detector_res) key,
    foldl (process_ngramm_full_step window type) candidates es !! key
      = (λ cand, cand_add cand (scan_gain window type key es))
        <$> candidates !! key.
Proof.
  induction es as [|e es IH]; intros candidates key; cbn [foldl scan_gain foldr].
  - destruct (candidates !! key); cbn; [by rewrite cand_add_0 | done].
  - fold (scan_gain window type key es).
    rewrite IH, process_ngramm_full_step_lookup.
    destruct (candidates !! key); cbn; [by rewrite cand_add_add | done].
Qed.

(** The full scan, seen from one key of the table: a stored candidate gains
    the counts of the profiles of that name; an absent key stays absent. *)
Lemma process_ngramm_full_lookup d
    (candidates : gmap string rspamd_lang_detector_res) key :
  rspamd_language_detector_process_ngramm_full d window type candidates !! key
    = (λ cand, cand_add cand (scan_gain window type key (languages d)))
      <$> candidates !! key.
Proof. apply foldl_full_step_lookup. Qed.

(** C5: a full scan started on an empty table leaves it empty, whatever
    the profiles hold: no candidate is created for a language that has
    none. *)
Theorem full_scan_creates_no_candidate d :
  rspamd_language_detector_process_ngramm_full d window type ∅ = ∅.
Proof.
  apply map_eq. intros key.
  by rewrite process_ngramm_full_lookup, lookup_empty.
Qed.

(** The iteration of the update scan over any duplicate-free listing of
    the table. *)
Lemma foldl_update_step l :
  NoDup l.*1 ->
  forall (m : gmap string rspamd_lang_detector_res) t,
    0 <= t < 2 ^ 32 ->
    foldl (process_ngramm_update_step window type) (m, t) l
      = (list_to_map (prod_map id (bump window type) <$> l) ∪ m,
         u32 (t + candidates_freq_sum window type l)).
Proof.
  induction l as [|[k v] l IH]; intros Hnd m t Ht.
  - cbn. rewrite (left_id_L ∅ (∪)), Z.add_0_r. by rewrite u32_small.
  - rewrite fmap_cons, NoDup_cons in Hnd. destruct Hnd as [Hk Hnd].
    cbn [foldl]. unfold process_ngramm_update_step at 2. cbn [fst snd].
    rewrite IH; [| done | unfold u32; apply Z.mod_pos_bound; lia].
    f_equal.
    + rewrite fmap_cons. cbn [prod_map fst snd id list_to_map foldr].
      unfold bump at 2. cbn [uncurry].
      rewrite <- insert_union_l. symmetry. apply insert_union_r.
      apply not_elem_of_list_to_map_1.
      rewrite <- list_fmap_compose.
      by replace (fst ∘ prod_map id (bump window type))
        with (@fst string rspamd_lang_detector_res) by done.
    + cbn [candidates_freq_sum foldr snd].
      fold (candidates_freq_sum window type l).
      unfold u32. rewrite Zplus_mod_idemp_l. f_equal. lia.
Qed.

(** The update scan in closed form. *)
Lemma process_ngramm_update_eq d
    (candidates : gmap string rspamd_lang_detector_res) :
  rspamd_language_detector_process_ngramm_update d window type candidates
    = if decide (u32 (candidates_freq_sum window type (map_to_list candidates))
                 = 0)
      then rspamd_language_detector_process_ngramm_full d window type
             (bump window type <$> candidates)
      else bump window type <$> candidates.
Proof.
  unfold rspamd_language_detector_process_ngramm_update.
  rewrite foldl_update_step; [| apply NoDup_fst_map_to_list | lia].
  cbn [fst snd]. rewrite Z.add_0_l.
  rewrite list_to_map_fmap, list_to_map_to_list.
  assert ((bump window type <$> candidates) ∪ candidates
          = bump window type <$> candidates) as ->; [| done].
  apply map_eq. intros k.
  rewrite lookup_union, lookup_fmap.
  by destruct (candidates !! k).
Qed.




(** C10: neither scan removes a candidate or lowers a score: whatever is
    stored under a key before a full scan or an update scan is still
    stored there afterwards with a score at least as large. *)
Theorem scans_keep_candidates d
    (candidates : gmap string rspamd_lang_detector_res) key cand :
  candidates !! key = Some cand ->
  (exists cand',
     rspamd_language_detector_process_ngramm_full d window type candidates
       !! key = Some cand'
     /\ prob cand <= prob cand')
  /\ (exists cand',
        rspamd_language_detector_process_ngramm_update d window type candidates
          !! key = Some cand'
        /\ prob cand <= prob cand').
Proof.
  intros Hin. split.
  - rewrite process_ngramm_full_lookup, Hin. eexists; split; [done |].
    cbn. pose proof (scan_gain_nonneg key (languages d)). lia.
  - rewrite process_ngramm_update_eq.
    pose proof (ngramm_freq_nonneg (elt cand)).
    case_decide.
    + rewrite process_ngramm_full_lookup, lookup_fmap, Hin.
      eexists; split; [done |].
      cbn. pose proof (scan_gain_nonneg key (languages d)). lia.
    + rewrite lookup_fmap, Hin. eexists; split; [done |]. cbn. lia.
Qed.

End Scans.

(** ** The entry point *)

Section Detect.

Context (d : rspamd_lang_detector) (words_len : Z).

(** C1: whatever the tokens and the profiles, the entry point reaches its
    closing brace without a [return]: no language name is returned. *)
Theorem detect_returns_no_language ucs_tokens :
  detect_result (rspamd_language_detector_detect d ucs_tokens words_len)
    = NoReturnStatement.
Proof. unfold rspamd_language_detector_detect. by case_decide. Qed.

(** C4: on either side of the short-text limit the entry point runs the
    scorer for no gram order at all. *)
Theorem detect_runs_no_gram_order ucs_tokens :
  phases_run (rspamd_language_detector_detect d ucs_tokens words_len) = [].
Proof. unfold rspamd_language_detector_detect. by case_decide. Qed.

(** C8: for no token array, the empty one included, does the entry point
    return [NULL]: it ends without a [return], so no "undetermined" result
    is reported. *)
Theorem detect_never_reports_undetermined ucs_tokens :
  detect_result (rspamd_language_detector_detect d ucs_tokens words_len)
    <> Returned None.
Proof. unfold rspamd_language_detector_detect. by case_decide. Qed.

End Detect.

(** ** Concrete runs *)

Example token_windows_abc_trigram :
  token_windows tok_abc [0; 0; 0] rs_trigramm
    = Some [(0, [97; 98; 99]); (1, [98; 99; 0])].
Proof. reflexivity. Qed.

Example token_windows_tent_unigram :
  token_windows tok_tent [0; 0; 0] rs_unigramm = Some [].
Proof. reflexivity. Qed.

Example full_scan_raises_stored_candidate :
  prob <$> (rspamd_language_detector_process_ngramm_full toy_detector window_e
              rs_unigramm {[ "en" := mk_res 3 "en" lang_en ]} !! "en")
    = Some 13.
Proof. reflexivity. Qed.

Example full_scan_skips_missing_language :
  rspamd_language_detector_process_ngramm_full toy_detector window_e
    rs_unigramm {[ "en" := mk_res 3 "en" lang_en ]} !! "xx" = None.
Proof. reflexivity. Qed.

Example update_scan_raises_stored_candidate :
  prob <$> (rspamd_language_detector_process_ngramm_update toy_detector
              window_e rs_unigramm {[ "xx" := mk_res 0 "xx" lang_xx ]} !! "xx")
    = Some 1.
Proof. reflexivity. Qed.

Example random_select_one_sample :
  rspamd_language_detector_random_select five_tokens 1 (Some [0]) (λ _, 13) 0
    = Ok ([3], 1%nat).
Proof. reflexivity. Qed.

(** C2: on "abc" with a window of two the walk produces the three windows
    "ab", "bc" and "c" followed by the terminator, where the claim has the
    four windows " a", "ab", "bc", "c ": the space each boundary branch
    stores is overwritten by the copy loop that follows it, so no window
    holds a boundary space, and the count is not [L + 1]. *)
Lemma token_windows_abc_bigram :
  token_windows tok_abc [0; 0; 0] rs_bigramm
    = Some [(0, [97; 98]); (1, [98; 99]); (2, [99; 0])]
  /\ ~ (exists ws,
          token_windows tok_abc [0; 0; 0] rs_bigramm = Some ws
          /\ Z.of_nat (length ws) = len tok_abc + 1).
Proof.
  split; [reflexivity |].
  intros (ws & Hws & Hlen).
  vm_compute in Hws. injection Hws as <-. vm_compute in Hlen. discriminate.
Qed.

Example random_select_null_output :
  rspamd_language_detector_random_select [tok_abc] 1 None (λ _, 0) 0
    = AssertFailed.
Proof. reflexivity. Qed.

Lemma random_select_fails_iff_witness :
  (rspamd_language_detector_random_select five_tokens 2 (Some [0; 0])
     (λ _, 0) 0 = AssertFailed
   <-> 2 = 0 \/ ptr_array_len five_tokens < 2)
  /\ (~ (2 = 0 \/ ptr_array_len five_tokens < 2) ->
      exists buf' drawn',
        rspamd_language_detector_random_select five_tokens 2 (Some [0; 0])
          (λ _, 0) 0 = Ok (buf', drawn')).
Proof.
  apply (random_select_fails_iff five_tokens 2 [0; 0] (λ _, 0) 0%nat).
  - vm_compute. split; [discriminate | reflexivity].
  - reflexivity.
  - vm_compute. discriminate.
Defined.

Lemma scans_keep_candidates_witness :
  (exists cand',
     rspamd_language_detector_process_ngramm_full toy_detector window_e
       rs_unigramm {[ "en" := mk_res 3 "en" lang_en ]} !! "en" = Some cand'
     /\ prob (mk_res 3 "en" lang_en) <= prob cand')
  /\ (exists cand',
        rspamd_language_detector_process_ngramm_update toy_detector window_e
          rs_unigramm {[ "en" := mk_res 3 "en" lang_en ]} !! "en" = Some cand'
        /\ prob (mk_res 3 "en" lang_en) <= prob cand').
Proof.
  apply (scans_keep_candidates window_e rs_unigramm toy_detector
           {[ "en" := mk_res 3 "en" lang_en ]} "en" (mk_res 3 "en" lang_en)).
  reflexivity.
Defined.

(** ** Further properties of the window walk *)

Section WindowWalkMore.

Lemma window_store_length w i c w' :
  window_store w i c = Some w' -> length w' = length w.
Proof.
  unfold window_store. case_decide; [| done].
  intros [= <-]. apply length_insert.
Qed.

Lemma for_loop_length (body : Z -> list UChar -> option (list UChar)) :
  (forall i w w', body i w = Some w' -> length w' = length w) ->
  forall n i w w', for_loop n i body w = Some w' -> length w' = length w.
Proof.
  intros Hbody. induction n as [|n IH]; intros i w w'; cbn [for_loop].
  - by intros [= <-].
  - destruct (body i w) as [w1|] eqn:E; cbn [mbind option_bind]; [| done].
    intros Hrest. rewrite (IH _ _ _ Hrest). by eapply Hbody.
Qed.

Lemma load_store_length tok off w i w' :
  (tok_load tok off ≫= window_store w i) = Some w' -> length w' = length w.
Proof.
  destruct (tok_load tok off) as [c|]; cbn [mbind option_bind]; [| done].
  apply window_store_length.
Qed.

(** X1: a call that does not fault keeps the size of the window buffer and
    returns either the next offset, or [-1] with the buffer exactly as the
    caller passed it. *)
Theorem next_ngramm_result tok window wlen cur window' r :
  rspamd_language_detector_next_ngramm tok window wlen cur
    = Some (window', r) ->
  length window' = length window
  /\ (r = cur + 1 \/ (r = -1 /\ window' = window)).
Proof.
  unfold rspamd_language_detector_next_ngramm.
  set (copy := for_loop (Z.to_nat wlen) 0
         (λ i w, c ← tok_load tok (cur + i); window_store w i c)).
  assert (Hcopy : forall w w', copy w = Some w' -> length w' = length w).
  { intros w w'. apply for_loop_length. intros i v v'.
    apply load_store_length. }
  assert (Hnormal : forall w, (w' ← copy w; Some (w', cur + 1))
                              = Some (window', r) ->
            length window' = length w /\ r = cur + 1).
  { intros w. destruct (copy w) as [w1|] eqn:E; cbn [mbind option_bind];
      [| done].
    intros [= <- <-]. split; [by apply Hcopy | done]. }
  repeat case_decide.
  - destruct (window_store window 0 SPACE) as [w0|] eqn:E0;
      cbn [mbind option_bind]; [| done].
    destruct (for_loop (Z.to_nat (wlen - 1)) 0
                (λ i w, c ← tok_load tok i; window_store w (i + 1) c) w0)
      as [w1|] eqn:E1; cbn [mbind option_bind]; [| done].
    intros Hn. destruct (Hnormal _ Hn) as [Hl ->]. split; [| by left].
    rewrite Hl.
    rewrite (for_loop_length _ (λ i v v', load_store_length tok i v (i + 1) v')
               _ _ _ _ E1).
    by eapply window_store_length.
  - destruct (for_loop (Z.to_nat (wlen - 1)) 0
                (λ i w, c ← tok_load tok (cur + i); window_store w i c) window)
      as [w1|] eqn:E1; cbn [mbind option_bind]; [| done].
    destruct (window_store w1 (wlen - 1) SPACE) as [w2|] eqn:E2;
      cbn [mbind option_bind]; [| done].
    intros Hn. destruct (Hnormal _ Hn) as [Hl ->]. split; [| by left].
    rewrite Hl, (window_store_length _ _ _ _ E2).
    by eapply (for_loop_length _
                 (λ i v v', load_store_length tok (cur + i) v i v')).
  - intros [= <- <-]. split; [done | by right].
  - intros Hn. destruct (Hnormal _ Hn) as [Hl ->]. by split; [| left].
  - intros [= <- <-]. split; [done | by right].
  - destruct (tok_load tok cur) as [c|]; cbn [mbind option_bind]; [| done].
    destruct (window_store window 0 c) as [w1|] eqn:E; cbn [mbind option_bind];
      [| done].
    intros [= <- <-]. split; [by eapply window_store_length | by left].
Qed.

(** X2: for a window size of two or three every window of a token is read
    off the token's storage at its own offset: the window recorded at offset
    [k] is the [w] storage elements from [k], so the first window is the
    first [w] elements and a window that reaches position [L] holds the
    element stored after the last character. *)
Theorem token_windows_are_storage_slices tok window type ws :
  type = rs_bigramm \/ type = rs_trigramm ->
  length window = 3%nat ->
  0 <= len tok < 2 ^ 63 ->
  Z.max (wlen_of type) (len tok + 1) <= Z.of_nat (length (begin tok)) ->
  token_windows tok window type = Some ws ->
  forall k win, (k, win) ∈ ws ->
    0 <= k /\ k + wlen_of type <= Z.max (wlen_of type) (len tok + 1)
    /\ win = slice k (wlen_of type) (begin tok)
    /\ length win = Z.to_nat (wlen_of type).
Proof.
  intros Hty Hwin Hlen Hsto Hws k win Hin.
  rewrite token_windows_walk in Hws by done. injection Hws as <-.
  apply list_elem_of_fmap in Hin as (k' & [= -> ->] & Hk).
  apply elem_of_seqZ in Hk.
  assert (Hw : 2 <= wlen_of type <= 3)
    by (destruct Hty as [-> | ->]; cbn; lia).
  repeat split; try lia.
  unfold slice. rewrite length_take, length_drop. lia.
Qed.

End WindowWalkMore.

(** ** Further properties of the sampler *)

Section SamplerMore.

(** The loop with [m] partitions ahead, slot by slot: slot [out_idx + j]
    receives an index of the [j]-th partition that starts at [i], and every
    other slot keeps what it held. *)
Lemma random_select_loop_slots coins n step (m : nat) :
  1 <= step -> n < 2 ^ 32 ->
  forall fuel i idx drawn out,
    0 <= i -> i + Z.of_nat m * step = n ->
    0 <= idx -> idx + Z.of_nat m <= Z.of_nat (length out) ->
    idx + Z.of_nat m < 2 ^ 32 ->
    (m < fuel)%nat ->
    exists out',
      random_select_loop fuel coins n step i idx drawn out
        = Ok (out', (drawn + m)%nat)
      /\ length out' = length out
      /\ (forall j : nat, (j < m)%nat ->
            exists v, out' !! (Z.to_nat idx + j)%nat = Some v
                      /\ i + Z.of_nat j * step <= v
                         < i + (Z.of_nat j + 1) * step)
      /\ (forall p : nat,
            (p < Z.to_nat idx \/ Z.to_nat idx + m <= p)%nat ->
            out' !! p = out !! p).
Proof.
  intros Hstep Hn.
  induction m as [|m IH]; intros fuel i idx drawn out Hi Hsum Hidx Hroom Hmax Hf;
    (destruct fuel as [|fuel]; [lia |]); cbn [random_select_loop].
  - rewrite decide_False by lia. exists out. rewrite Nat.add_0_r.
    split; [done |]. split; [done |]. split; [intros j Hj; lia | done].
  - rewrite decide_True by nia. rewrite decide_False by lia.
    rewrite offsets_store_ok by lia.
    rewrite (u32_small (i + step)) by nia.
    rewrite (u32_small (idx + 1)) by lia.
    set (sel := u64 (u64 (coins drawn) mod step + i)).
    assert (Hsel : i <= sel < i + step).
    { pose proof (Z.mod_pos_bound (u64 (coins drawn)) step ltac:(lia)).
      unfold sel. rewrite u64_small; nia. }
    destruct (IH fuel (i + step) (idx + 1) (Datatypes.S drawn)
                (<[Z.to_nat idx := s64 sel]> out))
      as (out' & -> & Hlen' & Hin & Hout); try lia.
    + rewrite length_insert. lia.
    + exists out'. rewrite length_insert in Hlen'.
      split; [do 2 f_equal; lia |]. split; [done |]. split.
      * intros [|j] Hj.
        -- exists (s64 sel). rewrite Nat.add_0_r, Hout by lia.
           rewrite list_lookup_insert_eq by lia.
           split; [done |]. rewrite s64_small by nia. lia.
        -- destruct (Hin j ltac:(lia)) as (v & Hv & Hb).
           exists v. split; [| lia].
           rewrite <- Hv. f_equal. lia.
      * intros p Hp. rewrite Hout by lia.
        apply list_lookup_insert_ne. lia.
Qed.

(** The call with at least two samples, slot by slot. *)
Lemma random_select_filled toks nwords buf coins drawn :
  2 <= nwords -> nwords <= ptr_array_len toks -> ptr_array_len toks < 2 ^ 32 ->
  nwords <= Z.of_nat (length buf) ->
  let step := ptr_array_len toks / nwords in
  let rem := ptr_array_len toks mod nwords in
  exists buf',
    rspamd_language_detector_random_select toks nwords (Some buf) coins drawn
      = Ok (buf', (drawn + Z.to_nat nwords)%nat)
    /\ length buf' = length buf
    /\ (forall j : nat, Z.of_nat j < nwords - 1 ->
          exists v, buf' !! j = Some v
                    /\ step + rem + Z.of_nat j * step <= v
                       < step + rem + (Z.of_nat j + 1) * step)
    /\ (forall p : nat, nwords - 1 <= Z.of_nat p -> buf' !! p = buf !! p).
Proof.
  intros Hk HN Hmax Hroom step rem. subst step rem.
  unfold rspamd_language_detector_random_select.
  set (n := ptr_array_len toks) in *.
  assert (Hdm := Z.div_mod n nwords ltac:(lia)).
  assert (Hrem := Z.mod_pos_bound n nwords ltac:(lia)).
  assert (Hstep : 0 < n / nwords) by (apply Z.div_str_pos; lia).
  rewrite !decide_False by lia.
  rewrite (u32_small (n / nwords + n mod nwords)) by nia.
  rewrite decide_False by lia.
  rewrite offsets_store_ok by lia.
  set (buf1 := <[Z.to_nat 0 := _]> buf).
  destruct (random_select_loop_slots coins n (n / nwords)
              (Z.to_nat (nwords - 1)) ltac:(lia) Hmax
              (Datatypes.S (Z.to_nat n)) (n / nwords + n mod nwords) 0
              (Datatypes.S drawn) buf1)
    as (buf' & -> & Hlen' & Hin & Hout); try lia.
  - unfold buf1. rewrite length_insert. lia.
  - exists buf'. unfold buf1 in Hlen'. rewrite length_insert in Hlen'.
    split; [do 2 f_equal; lia |]. split; [done |]. split.
    + intros j Hj. destruct (Hin j ltac:(lia)) as (v & Hv & Hb).
      exists v. split; [exact Hv | exact Hb].
    + intros p Hp. rewrite Hout by lia.
      unfold buf1. apply list_lookup_insert_ne. lia.
Qed.

(** X3: with at least two samples requested (and no more than there are
    tokens) the call makes one draw per sample and fills slots
    [0 .. nwords - 2] only: slot [j] receives an index of the partition
    after the [j]-th one, that is of
    [[step + rem + j * step, step + rem + (j + 1) * step)], and every slot
    from [nwords - 1] on keeps what the caller left there.  No index of the
    first partition [[0, step + rem)] is stored. *)
Theorem random_select_slots toks nwords buf coins drawn :
  2 <= nwords -> nwords <= ptr_array_len toks -> ptr_array_len toks < 2 ^ 32 ->
  nwords <= Z.of_nat (length buf) ->
  let step := ptr_array_len toks / nwords in
  let rem := ptr_array_len toks mod nwords in
  exists buf',
    rspamd_language_detector_random_select toks nwords (Some buf) coins drawn
      = Ok (buf', (drawn + Z.to_nat nwords)%nat)
    /\ length buf' = length buf
    /\ (forall j : nat, Z.of_nat j < nwords - 1 ->
          exists v, buf' !! j = Some v
                    /\ step + rem + Z.of_nat j * step <= v
                       < step + rem + (Z.of_nat j + 1) * step)
    /\ (forall p : nat, nwords - 1 <= Z.of_nat p -> buf' !! p = buf !! p).
Proof. apply random_select_filled. Qed.

(** X4: the indices the call stores are valid and ordered: every filled
    slot holds an index into the token array, and a later filled slot holds
    a strictly larger index than an earlier one. *)
Theorem random_select_sorted_in_range toks nwords buf coins drawn buf' drawn' :
  2 <= nwords -> nwords <= ptr_array_len toks -> ptr_array_len toks < 2 ^ 32 ->
  nwords <= Z.of_nat (length buf) ->
  rspamd_language_detector_random_select toks nwords (Some buf) coins drawn
    = Ok (buf', drawn') ->
  (forall (j : nat) v,
     Z.of_nat j < nwords - 1 -> buf' !! j = Some v ->
     0 <= v < ptr_array_len toks)
  /\ (forall (j1 j2 : nat) v1 v2,
        (j1 < j2)%nat -> Z.of_nat j2 < nwords - 1 ->
        buf' !! j1 = Some v1 -> buf' !! j2 = Some v2 ->
        v1 < v2).
Proof.
  intros Hk HN Hmax Hroom Hrun.
  destruct (random_select_filled toks nwords buf coins drawn Hk HN Hmax Hroom)
    as (buf'' & Hrun' & _ & Hin & _).
  rewrite Hrun in Hrun'. injection Hrun' as <- _.
  set (n := ptr_array_len toks) in *.
  assert (Hdm := Z.div_mod n nwords ltac:(lia)).
  assert (Hrem := Z.mod_pos_bound n nwords ltac:(lia)).
  assert (Hstep : 0 < n / nwords) by (apply Z.div_str_pos; lia).
  split.
  - intros j v Hj Hv.
    destruct (Hin j Hj) as (w & Hw & Hb).
    rewrite Hv in Hw. injection Hw as <-. nia.
  - intros j1 j2 v1 v2 Hlt Hj2 H1 H2.
    destruct (Hin j1 ltac:(lia)) as (w1 & Hw1 & Hb1).
    destruct (Hin j2 ltac:(lia)) as (w2 & Hw2 & Hb2).
    rewrite H1 in Hw1. rewrite H2 in Hw2.
    injection Hw1 as <-. injection Hw2 as <-. nia.
Qed.

(** X5: with one sample requested the single draw is reduced modulo the
    number of tokens and stored in slot [0]; the other slots are left
    alone. *)
Theorem random_select_one toks buf coins drawn :
  1 <= ptr_array_len toks -> ptr_array_len toks < 2 ^ 32 ->
  (1 <= length buf)%nat ->
  exists v,
    rspamd_language_detector_random_select toks 1 (Some buf) coins drawn
      = Ok (<[0%nat := v]> buf, Datatypes.S drawn)
    /\ v = u64 (coins drawn) mod ptr_array_len toks
    /\ 0 <= v < ptr_array_len toks.
Proof.
  intros HN Hmax Hroom.
  unfold rspamd_language_detector_random_select.
  set (n := ptr_array_len toks) in *.
  rewrite !decide_False by lia.
  rewrite Z.div_1_r, Z.mod_1_r, Z.add_0_r.
  rewrite (u32_small n) by lia.
  rewrite decide_False by lia.
  rewrite offsets_store_ok by lia.
  pose proof (Z.mod_pos_bound (u64 (coins drawn)) n ltac:(lia)).
  exists (u64 (coins drawn) mod n).
  cbn [random_select_loop]. rewrite decide_False by lia.
  rewrite s64_small by lia. done.
Qed.

End SamplerMore.

(** ** Further properties of the two scans *)

Section ScansMore.

Context (window : list UChar) (type : rspamd_language_gramm_type).

(** X6: neither scan adds a key to the candidate table, removes one, or
    changes the language name or the profile a stored candidate refers to:
    only scores move. *)
Theorem scans_touch_scores_only d
    (candidates : gmap string rspamd_lang_detector_res) key :
  (λ cand, (lang cand, elt cand))
    <$> rspamd_language_detector_process_ngramm_full d window type candidates
        !! key
  = (λ cand, (lang cand, elt cand)) <$> candidates !! key
  /\ (λ cand, (lang cand, elt cand))
       <$> rspamd_language_detector_process_ngramm_update d window type
             candidates !! key
     = (λ cand, (lang cand, elt cand)) <$> candidates !! key.
Proof.
  split.
  - rewrite process_ngramm_full_lookup. by destruct (candidates !! key).
  - rewrite process_ngramm_update_eq. case_decide.
    + rewrite process_ngramm_full_lookup, lookup_fmap.
      by destruct (candidates !! key).
    + rewrite lookup_fmap. by destruct (candidates !! key).
Qed.

Lemma scan_gain_not_named key es :
  key ∉ name <$> es -> scan_gain window type key es = 0.
Proof.
  induction es as [|e es IH]; cbn [scan_gain foldr]; [done |].
  fold (scan_gain window type key es).
  rewrite fmap_cons, not_elem_of_cons. intros [Hne Hnin].
  rewrite decide_False by done. rewrite IH by done. lia.
Qed.

Lemma scan_gain_named e es :
  NoDup (name <$> es) -> e ∈ es ->
  scan_gain window type (name e) es = ngramm_freq e type window.
Proof.
  induction es as [|e' es IH]; intros Hnd Hin; [by apply elem_of_nil in Hin |].
  rewrite fmap_cons, NoDup_cons in Hnd. destruct Hnd as [Hfresh Hnd].
  cbn [scan_gain foldr]. fold (scan_gain window type (name e) es).
  apply elem_of_cons in Hin as [-> | Hin].
  - rewrite decide_True by done.
    rewrite scan_gain_not_named by done. lia.
  - rewrite decide_False.
    + rewrite IH by done. lia.
    + intros Heq. apply Hfresh. rewrite Heq.
      by apply list_elem_of_fmap_2.
Qed.


(** X8: take a detector whose profiles have distinct names and a table in
    which every candidate refers to a profile of the detector and is stored
    under that profile's name.  If none of those profiles has the window,
    the update scan, fallback full scan included, leaves the table exactly
    as it was. *)
Theorem update_scan_without_match d
    (candidates : gmap string rspamd_lang_detector_res) :
  NoDup (name <$> languages d) ->
  (forall key cand,
     candidates !! key = Some cand ->
     name (elt cand) = key /\ elt cand ∈ languages d
     /\ ngramm_freq (elt cand) type window = 0) ->
  rspamd_language_detector_process_ngramm_update d window type candidates
    = candidates.
Proof.
  intros Hnd Hwf.
  assert (Hbump : bump window type <$> candidates = candidates).
  { apply map_eq. intros key. rewrite lookup_fmap.
    destruct (candidates !! key) as [cand|] eqn:E; [| done].
    destruct (Hwf key cand E) as (_ & _ & H0).
    cbn. unfold bump. by rewrite H0, cand_add_0. }
  rewrite process_ngramm_update_eq, Hbump.
  assert (Hfull : rspamd_language_detector_process_ngramm_full d window type
                    candidates = candidates).
  { apply map_eq. intros key. rewrite process_ngramm_full_lookup.
    destruct (candidates !! key) as [cand|] eqn:E; [| done].
    destruct (Hwf key cand E) as (Hname & Hin & H0).
    cbn. rewrite <- Hname, scan_gain_named by done.
    by rewrite H0, cand_add_0. }
  rewrite Hfull. by case_decide.
Qed.

End ScansMore.

(** X10: full scans commute: scanning for one window and then for another
    gives the same table as scanning in the other order, also across gram
    orders. *)
Theorem full_scans_commute d window1 type1 window2 type2
    (candidates : gmap string rspamd_lang_detector_res) :
  rspamd_language_detector_process_ngramm_full d window2 type2
    (rspamd_language_detector_process_ngramm_full d window1 type1 candidates)
  = rspamd_language_detector_process_ngramm_full d window1 type1
      (rspamd_language_detector_process_ngramm_full d window2 type2
         candidates).
Proof.
  apply map_eq. intros key.
  rewrite !process_ngramm_full_lookup.
  destruct (candidates !! key) as [cand|]; cbn; [| done].
  rewrite !cand_add_add. do 2 f_equal. lia.
Qed.

(** ** Keys of the frequency tables *)

Section Keys.

Lemma memcmp_zero_iff (n : nat) :
  forall s1 s2,
    (n <= length s1)%nat -> (n <= length s2)%nat ->
    exists r, memcmp s1 s2 n = Some r /\ (r = 0 <-> take n s1 = take n s2).
Proof.
  induction n as [|n IH]; intros s1 s2 H1 H2; cbn [memcmp].
  - exists 0. rewrite !take_0. split; [done | split; done].
  - destruct s1 as [|b1 r1]; [cbn in H1; lia |].
    destruct s2 as [|b2 r2]; [cbn in H2; lia |].
    cbn in H1, H2. cbn [take].
    destruct (decide (b1 = b2)) as [-> | Hne].
    + destruct (IH r1 r2 ltac:(lia) ltac:(lia)) as (r & -> & Hr).
      exists r. split; [done |]. rewrite Hr.
      split; [by intros -> | by intros [= ->]].
    + exists (b1 - b2). split; [done |].
      split; [lia | by intros [= ->]].
Qed.

Lemma key_bytes_cons c key : key_bytes (c :: key) = uchar_bytes c ++ key_bytes key.
Proof. done. Qed.

Lemma length_key_bytes key : length (key_bytes key) = (2 * length key)%nat.
Proof.
  induction key as [|c key IH]; [done |].
  rewrite key_bytes_cons, length_app, IH. cbn. lia.
Qed.

Lemma uchar_bytes_inj c1 c2 :
  is_UChar c1 -> is_UChar c2 -> uchar_bytes c1 = uchar_bytes c2 -> c1 = c2.
Proof.
  unfold is_UChar, uchar_bytes. intros H1 H2 [= Hlo Hhi].
  rewrite (Z.div_mod c1 256), (Z.div_mod c2 256) by lia.
  rewrite (Z.mod_small (c1 / 256) 256) in Hhi
    by (split; [apply Z.div_pos; lia | apply Z.div_lt_upper_bound; lia]).
  rewrite (Z.mod_small (c2 / 256) 256) in Hhi
    by (split; [apply Z.div_pos; lia | apply Z.div_lt_upper_bound; lia]).
  by rewrite Hlo, Hhi.
Qed.

(** The first [2 * k] bytes of a key are the bytes of its first [k]
    characters, and for characters of sixteen bits they determine them. *)
Lemma take_key_bytes (k : nat) :
  forall key, take (2 * k) (key_bytes key) = key_bytes (take k key).
Proof.
  induction k as [|k IH]; intros key; [by rewrite !take_0 |].
  destruct key as [|c key]; [done |].
  replace (2 * Datatypes.S k)%nat
    with (Datatypes.S (Datatypes.S (2 * k))) by lia.
  rewrite firstn_cons, !key_bytes_cons. cbn [uchar_bytes app take].
  by rewrite IH.
Qed.

Lemma key_bytes_inj key1 :
  forall key2,
    Forall is_UChar key1 -> Forall is_UChar key2 ->
    key_bytes key1 = key_bytes key2 -> key1 = key2.
Proof.
  induction key1 as [|c1 key1 IH]; intros [|c2 key2] H1 H2 Heq; try done.
  rewrite !key_bytes_cons in Heq. cbn [uchar_bytes app] in Heq.
  injection Heq as Hlo Hhi Hrest.
  apply Forall_cons in H1 as [Hc1 H1]. apply Forall_cons in H2 as [Hc2 H2].
  f_equal; [| by apply IH].
  apply uchar_bytes_inj; [done | done |]. unfold uchar_bytes. congruence.
Qed.

Lemma Forall_take_is_UChar k key :
  Forall is_UChar key -> Forall is_UChar (take k key).
Proof. apply Forall_take. Qed.

(** X11: on keys that hold at least as many characters as the gram order
    asks for, the equality function of a table says "equal" exactly when the
    two keys agree on their first one, two or three characters; what follows
    in either buffer is not looked at. *)
Theorem ngramm_equal_iff type (v v2 : list UChar) :
  Forall is_UChar v -> Forall is_UChar v2 ->
  wlen_of type <= Z.of_nat (length v) ->
  wlen_of type <= Z.of_nat (length v2) ->
  ngramm_equal type v v2
    = Some (bool_decide (take (Z.to_nat (wlen_of type)) v
                         = take (Z.to_nat (wlen_of type)) v2)).
Proof.
  intros Hv Hv2 Hl Hl2.
  assert (Hgen : forall k : nat,
    (k <= length v)%nat -> (k <= length v2)%nat ->
    (r ← memcmp (key_bytes v) (key_bytes v2) (2 * k);
     Some (bool_decide (r = 0)))
    = Some (bool_decide (take k v = take k v2))).
  { intros k Hk Hk2.
    destruct (memcmp_zero_iff (2 * k) (key_bytes v) (key_bytes v2))
      as (r & -> & Hr); [rewrite length_key_bytes; lia .. |].
    cbn [mbind option_bind]. f_equal. apply bool_decide_ext.
    rewrite Hr, !take_key_bytes.
    split; [| by intros ->].
    apply key_bytes_inj; by apply Forall_take_is_UChar. }
  destruct type; cbn [ngramm_equal wlen_of] in *.
  - apply (Hgen 1%nat); lia.
  - apply (Hgen 2%nat); lia.
  - apply (Hgen 3%nat); lia.
Qed.

(** X12: the hash function of a table agrees with its equality function:
    two keys the equality function calls equal have the same hash, whatever
    the underlying byte hash and seed are. *)
Theorem ngramm_equal_same_hash type fast_hash seed (v v2 : list UChar) :
  ngramm_equal type v v2 = Some true ->
  ngramm_hash type fast_hash seed v = ngramm_hash type fast_hash seed v2.
Proof.
  assert (Hgen : forall n : nat,
    (r ← memcmp (key_bytes v) (key_bytes v2) n; Some (bool_decide (r = 0)))
      = Some true ->
    take n (key_bytes v) = take n (key_bytes v2)).
  { intros n. generalize (key_bytes v) (key_bytes v2).
    induction n as [|n IH]; intros s1 s2; [by rewrite !take_0 |].
    cbn [memcmp].
    destruct s1 as [|b1 r1], s2 as [|b2 r2]; try done.
    destruct (decide (b1 = b2)) as [-> | Hne].
    - intros H. cbn [take]. f_equal. by apply IH.
    - cbn [mbind option_bind]. intros [= H].
      apply bool_decide_eq_true in H. lia. }
  destruct type; cbn [ngramm_equal ngramm_hash];
    unfold rspamd_unigram_equal, rspamd_bigram_equal, rspamd_trigram_equal,
      rspamd_unigram_hash, rspamd_bigram_hash, rspamd_trigram_hash;
    intros H; by rewrite (Hgen _ H).
Qed.

End Keys.

(** ** Profile names *)

Section ProfileName.

Lemma occurs_app c s1 s2 : occurs c (s1 +:+ s2) = occurs c s1 || occurs c s2.
Proof.
  induction s1 as [|a s1 IH]; [done |].
  simpl. rewrite IH. by destruct (bool_decide (a = c)).
Qed.

Lemma after_last_absent c s : occurs c s = false -> after_last c s = None.
Proof.
  induction s as [|a s IH]; [done |].
  cbn [occurs after_last]. intros [Ha Hs]%orb_false_elim.
  rewrite IH by done. apply bool_decide_eq_false in Ha.
  by rewrite decide_False.
Qed.

Lemma after_last_app c dir base :
  occurs c base = false ->
  after_last c (dir +:+ String c base) = Some base.
Proof.
  intros Hbase. induction dir as [|a dir IH]; simpl.
  - rewrite after_last_absent by done. by rewrite decide_True.
  - by rewrite IH.
Qed.

Lemma after_last_split c s base :
  after_last c s = Some base ->
  exists dir, s = dir +:+ String c base /\ occurs c base = false.
Proof.
  revert base. induction s as [|a s IH]; intros base; [done |].
  cbn [after_last].
  destruct (after_last c s) as [r|] eqn:E.
  - intros [= ->]. destruct (IH base eq_refl) as (dir & -> & Hb).
    by exists (String a dir).
  - case_decide as Ha; [| done]. intros [= ->]. subst a.
    exists EmptyString. split; [done |].
    destruct (occurs c base) eqn:Ho; [| done].
    exfalso. clear IH. revert E Ho.
    induction base as [|b base IHb]; [done |].
    cbn [after_last occurs].
    destruct (after_last c base); [done |].
    case_decide as Hb; [done |]. intros _.
    rewrite bool_decide_eq_false_2 by done. cbn. by apply IHb.
Qed.

Lemma before_first_app c nm rest :
  occurs c nm = false ->
  before_first c (nm +:+ String c rest) = Some nm.
Proof.
  induction nm as [|a nm IH]; simpl.
  - intros _. by rewrite decide_True.
  - intros [Ha Hs]%orb_false_elim. apply bool_decide_eq_false in Ha.
    rewrite decide_False by done. by rewrite IH.
Qed.

Lemma before_first_split c s nm :
  before_first c s = Some nm ->
  exists rest, s = nm +:+ String c rest /\ occurs c nm = false.
Proof.
  revert nm. induction s as [|a s IH]; intros nm; [done |].
  cbn [before_first]. case_decide as Ha.
  - intros [= <-]. subst a. by exists s.
  - destruct (before_first c s) as [r|]; [| done].
    cbn. intros [= <-]. destruct (IH r eq_refl) as (rest & -> & Hr).
    exists rest. split; [done |]. cbn [occurs].
    by rewrite bool_decide_eq_false_2.
Qed.

Lemma before_first_absent c s : occurs c s = false -> before_first c s = None.
Proof.
  induction s as [|a s IH]; [done |].
  cbn [occurs before_first]. intros [Ha Hs]%orb_false_elim.
  apply bool_decide_eq_false in Ha.
  rewrite decide_False by done. by rewrite IH.
Qed.

(** X13: the name given to a profile is [nm] exactly when the path reads
    [dir/nm.ext] with no slash and no dot in [nm] and no slash in [ext]:
    the directory part may hold dots and slashes, and of several dots in
    the file name the first one ends the name. *)
Theorem language_name_of_path_ok_iff path nm :
  language_name_of_path path = Ok nm
  <-> exists dir ext,
        path = dir +:+ "/" +:+ nm +:+ "." +:+ ext
        /\ occurs "/" nm = false /\ occurs "." nm = false
        /\ occurs "/" ext = false.
Proof.
  unfold language_name_of_path. split.
  - destruct (after_last "/" path) as [base|] eqn:Eb; [| done].
    destruct (before_first "." base) as [nm'|] eqn:En; [| done].
    intros [= ->].
    apply after_last_split in Eb as (dir & -> & Hbase).
    apply before_first_split in En as (ext & -> & Hnm).
    exists dir, ext.
    rewrite occurs_app in Hbase. apply orb_false_elim in Hbase as [H1 H2].
    cbn [occurs] in H2. apply orb_false_elim in H2 as [_ H2].
    done.
  - intros (dir & ext & -> & Hs & Hd & He).
    change (dir +:+ "/" +:+ nm +:+ "." +:+ ext)
      with (dir +:+ String "/" (nm +:+ String "." ext)).
    rewrite after_last_app.
    + by rewrite before_first_app.
    + rewrite occurs_app, Hs. cbn [occurs]. by rewrite He.
Qed.

(** X14: a path without a slash, and a path whose part after the last
    slash has no dot, stop the loader on an assertion; no other path
    does. *)
Theorem language_name_of_path_fails_iff path :
  language_name_of_path path = AssertFailed
  <-> occurs "/" path = false
      \/ exists dir base,
           path = dir +:+ "/" +:+ base
           /\ occurs "/" base = false /\ occurs "." base = false.
Proof.
  unfold language_name_of_path. split.
  - destruct (after_last "/" path) as [base|] eqn:Eb.
    + destruct (before_first "." base) as [nm|] eqn:En; [done |].
      intros _. right.
      apply after_last_split in Eb as (dir & -> & Hbase).
      exists dir, base. split; [done |]. split; [done |].
      destruct (occurs "." base) eqn:Ho; [| done].
      exfalso. clear Hbase. revert En Ho.
      induction base as [|b base IHb]; [done |].
      cbn [before_first occurs]. case_decide as Hb; [done |].
      rewrite bool_decide_eq_false_2 by done.
      destruct (before_first "." base); [done |]. cbn. intros _. by apply IHb.
    + intros _. left.
      destruct (occurs "/" path) eqn:Ho; [| done].
      exfalso. revert Eb Ho.
      induction path as [|a path IHp]; [done |].
      cbn [after_last occurs].
      destruct (after_last "/" path); [done |].
      case_decide as Ha; [done |].
      rewrite bool_decide_eq_false_2 by done. cbn. intros _. by apply IHp.
  - intros [Hno | (dir & base & -> & Hs & Hd)].
    + by rewrite after_last_absent.
    + change (dir +:+ "/" +:+ base) with (dir +:+ String "/" base).
      rewrite after_last_app by done.
      by rewrite before_first_absent.
Qed.

End ProfileName.

(** ** Loading one profile *)

Section Loader.

Context (ucnv_toUChars : list Z -> Z -> Z * list UChar * Z).

(** A round entered with an error code already set, for a converter that
    never clears the code, changes nothing in the profile. *)
Lemma read_file_entry_after_error nelt e cur :
  (forall key e', e' <> 0 -> (ucnv_toUChars key e').2 <> 0) ->
  e <> 0 ->
  (read_file_entry ucnv_toUChars (nelt, e) cur).1 = nelt /\ (read_file_entry ucnv_toUChars (nelt, e) cur).2 <> 0.
Proof.
  intros Hsticky He. unfold read_file_entry. cbn [fst snd].
  destruct (ucl_key cur) as [key|]; [| done].
  specialize (Hsticky key e He).
  destruct (ucnv_toUChars key e) as [[ret ucs_key] uc_err].
  cbn [snd] in Hsticky. by rewrite decide_True.
Qed.

Lemma foldl_read_file_entry_after_error entries :
  (forall key e', e' <> 0 -> (ucnv_toUChars key e').2 <> 0) ->
  forall nelt e, e <> 0 -> (foldl (read_file_entry ucnv_toUChars) (nelt, e) entries).1 = nelt.
Proof.
  intros Hsticky. induction entries as [|cur entries IH]; intros nelt e He;
    [done |].
  cbn [foldl].
  destruct (read_file_entry_after_error nelt e cur Hsticky He) as [H1 H2].
  destruct (read_file_entry ucnv_toUChars (nelt, e) cur) as [nelt' e']. cbn [fst snd] in H1, H2.
  subst nelt'. by apply IH.
Qed.

(** X15: the error code of the converter is never reset between keys.  With
    a converter that, as ICU does, leaves a code that is already set, the
    first key that fails to convert ends the load: that member and every
    later member of "freq" leave the profile as it was. *)
Theorem read_file_stops_at_first_error nm before cur key after :
  (forall key e', e' <> 0 -> (ucnv_toUChars key e').2 <> 0) ->
  ucl_key cur = Some key ->
  (ucnv_toUChars key (read_file_profile ucnv_toUChars nm before).2).2 <> 0 ->
  (read_file_profile ucnv_toUChars nm (before ++ cur :: after)).1
    = (read_file_profile ucnv_toUChars nm before).1.
Proof.
  intros Hsticky Hkey Herr. unfold read_file_profile in *.
  rewrite foldl_app. cbn [foldl].
  destruct (foldl (read_file_entry ucnv_toUChars) (mk_elt nm 0 ∅ 0 ∅ 0 ∅, 0) before) as [nelt e].
  cbn [fst snd] in *.
  assert (Hstep : exists e', read_file_entry ucnv_toUChars (nelt, e) cur = (nelt, e') /\ e' <> 0).
  { unfold read_file_entry. cbn [fst snd]. rewrite Hkey.
    destruct (ucnv_toUChars key e) as [[ret ucs_key] uc_err].
    cbn [snd] in Herr. rewrite decide_True by done. by exists uc_err. }
  destruct Hstep as (e' & -> & He').
  by apply foldl_read_file_entry_after_error.
Qed.

(** A round entered without error whose key, if any, converts without
    error. *)
Lemma read_file_entry_clean nelt cur :
  (forall key, ucl_key cur = Some key -> (ucnv_toUChars key 0).2 = 0) ->
  (read_file_entry ucnv_toUChars (nelt, 0) cur).2 = 0
  /\ name (read_file_entry ucnv_toUChars (nelt, 0) cur).1 = name nelt
  /\ forall type,
       ngramms_of (read_file_entry ucnv_toUChars (nelt, 0) cur).1 type
         = gram_insert (entry_gram ucnv_toUChars type cur) (ngramms_of nelt type)
       /\ ngramms_total_of (read_file_entry ucnv_toUChars (nelt, 0) cur).1 type
          = gram_count (entry_gram ucnv_toUChars type cur)
              (ngramms_total_of nelt type).
Proof.
  intros Hclean. unfold read_file_entry, entry_gram. cbn [fst snd].
  destruct (ucl_key cur) as [key|]; cbn [mbind option_bind].
  2: { split; [done |]. split; [done |]. by intros type. }
  specialize (Hclean key eq_refl).
  destruct (ucnv_toUChars key 0) as [[ret ucs_key] uc_err].
  cbn [fst snd] in *. subst uc_err.
  destruct (decide (0 <> 0)) as [Hne | _]; [done |].
  destruct (decide (u32 ret = 2)) as [E2 | E2];
    [| destruct (decide (u32 ret = 3)) as [E3 | E3];
       [| destruct (decide (u32 ret = 1)) as [E1 | E1]]];
    cbn [fst snd];
    (split; [done |]); (split; [done |]);
    intros []; cbn [wlen_of];
    repeat (case_decide; try lia); done.
Qed.

Lemma foldl_read_file_entry_clean entries :
  forall nelt,
    (forall cur key, cur ∈ entries -> ucl_key cur = Some key ->
                     (ucnv_toUChars key 0).2 = 0) ->
    (foldl (read_file_entry ucnv_toUChars) (nelt, 0) entries).2 = 0
    /\ name (foldl (read_file_entry ucnv_toUChars) (nelt, 0) entries).1 = name nelt
    /\ forall type,
         ngramms_of (foldl (read_file_entry ucnv_toUChars) (nelt, 0) entries).1 type
           = foldl (λ m kv, <[kv.1 := kv.2]> m) (ngramms_of nelt type)
               (converted_grams ucnv_toUChars type entries)
         /\ ngramms_total_of (foldl (read_file_entry ucnv_toUChars) (nelt, 0) entries).1 type
            = foldl (λ t kv, u32 (t + kv.2)) (ngramms_total_of nelt type)
                (converted_grams ucnv_toUChars type entries).
Proof.
  induction entries as [|cur entries IH]; intros nelt Hclean; [done |].
  cbn [foldl].
  destruct (read_file_entry_clean nelt cur) as (H2 & Hname & Hty).
  { intros key. apply Hclean. by left. }
  destruct (read_file_entry ucnv_toUChars (nelt, 0) cur) as [nelt' e']. cbn [fst snd] in *. subst e'.
  destruct (IH nelt') as (IH2 & IHname & IHty).
  { intros c key Hin. apply Hclean. by right. }
  split; [done |]. split; [congruence |].
  intros type. destruct (IHty type) as [-> ->].
  destruct (Hty type) as [-> ->].
  unfold converted_grams. cbn [omap list_omap].
  by destruct (entry_gram ucnv_toUChars type cur).
Qed.

Lemma foldl_insert_list_to_map (l : list (list UChar * Z)) :
  forall m : gmap (list UChar) Z,
    foldl (λ m kv, <[kv.1 := kv.2]> m) m l = list_to_map (reverse l) ∪ m.
Proof.
  induction l as [|[k v] l IH]; intros m.
  - rewrite reverse_nil. cbn [foldl list_to_map foldr].
    by rewrite (left_id_L ∅ (∪)).
  - cbn [foldl fst snd]. rewrite IH, reverse_cons.
    rewrite list_to_map_app. cbn [list_to_map foldr fst snd].
    rewrite insert_empty, <- (assoc_L (∪)).
    by rewrite <- insert_union_singleton_l.
Qed.

Lemma foldl_count_sum (l : list (list UChar * Z)) :
  forall t, 0 <= t < 2 ^ 32 ->
    foldl (λ t kv, u32 (t + kv.2)) t l = u32 (t + sum_freqs l).
Proof.
  induction l as [|[k v] l IH]; intros t Ht; cbn [foldl sum_freqs foldr snd].
  - by rewrite Z.add_0_r, u32_small.
  - fold (sum_freqs l).
    rewrite IH by (unfold u32; apply Z.mod_pos_bound; lia).
    unfold u32. rewrite Zplus_mod_idemp_l. f_equal. lia.
Qed.

(** The tables and counters after a load in which every key converts. *)
Lemma read_file_profile_tables nm entries type :
  (forall cur key, cur ∈ entries -> ucl_key cur = Some key ->
                   (ucnv_toUChars key 0).2 = 0) ->
  name (read_file_profile ucnv_toUChars nm entries).1 = nm
  /\ ngramms_of (read_file_profile ucnv_toUChars nm entries).1 type
     = list_to_map (reverse (converted_grams ucnv_toUChars type entries))
  /\ ngramms_total_of (read_file_profile ucnv_toUChars nm entries).1 type
     = u32 (sum_freqs (converted_grams ucnv_toUChars type entries)).
Proof.
  intros Hclean. unfold read_file_profile.
  destruct (foldl_read_file_entry_clean entries (mk_elt nm 0 ∅ 0 ∅ 0 ∅) Hclean)
    as (_ & Hname & Hty).
  destruct (Hty type) as [Htab Htot].
  split; [done |]. rewrite Htab, Htot. split.
  - rewrite foldl_insert_list_to_map.
    destruct type; cbn [ngramms_of unigramms bigramms trigramms];
      by rewrite (right_id_L ∅ (∪)).
  - rewrite foldl_count_sum by (destruct type; cbn; lia).
    by destruct type.
Qed.

(** X16: when every key of "freq" converts without error, the table of
    each gram order holds the keys of that many characters, each with the
    frequency of the member nearest the end of the file that carries it,
    and its counter is the sum, as a [guint], of the frequencies of all
    those members, repeated keys included.  Members without a key and keys
    of no or more than three characters contribute nothing. *)
Theorem read_file_profile_clean nm entries type :
  (forall cur key, cur ∈ entries -> ucl_key cur = Some key ->
                   (ucnv_toUChars key 0).2 = 0) ->
  let profile := (read_file_profile ucnv_toUChars nm entries).1 in
  name profile = nm
  /\ (forall key,
        ngramms_of profile type !! key
        = (list_to_map (reverse (converted_grams ucnv_toUChars type entries))
             : gmap (list UChar) Z) !! key)
  /\ ngramms_total_of profile type
     = u32 (sum_freqs (converted_grams ucnv_toUChars type entries)).
Proof.
  intros Hclean profile. subst profile.
  destruct (read_file_profile_tables nm entries type Hclean)
    as (Hname & Htab & Htot).
  split; [done |]. split; [| done]. intros key. by rewrite Htab.
Qed.

Lemma sum_freqs_app l1 l2 : sum_freqs (l1 ++ l2) = sum_freqs l1 + sum_freqs l2.
Proof.
  induction l1 as [|kv l1 IH]; cbn [app sum_freqs foldr]; [done |].
  fold (sum_freqs (l1 ++ l2)). fold (sum_freqs l1). lia.
Qed.

Lemma sum_freqs_reverse l : sum_freqs (reverse l) = sum_freqs l.
Proof.
  induction l as [|kv l IH]; [done |].
  rewrite reverse_cons, sum_freqs_app, IH. unfold sum_freqs. cbn [foldr]. lia.
Qed.

Lemma table_sum_list_to_map (l : list (list UChar * Z)) :
  NoDup l.*1 -> table_sum (list_to_map l) = sum_freqs l.
Proof.
  induction l as [|[k v] l IH]; intros Hnd.
  - unfold table_sum. cbn. by rewrite map_fold_empty.
  - rewrite fmap_cons, NoDup_cons in Hnd. destruct Hnd as [Hk Hnd].
    cbn [list_to_map foldr fst snd sum_freqs]. fold (sum_freqs l).
    unfold table_sum. rewrite map_fold_insert_L.
    + fold (table_sum (list_to_map l)). by rewrite IH.
    + intros. lia.
    + by apply not_elem_of_list_to_map_1.
Qed.

Lemma converted_grams_nonneg type entries :
  0 <= sum_freqs (converted_grams ucnv_toUChars type entries).
Proof.
  induction entries as [|cur entries IH]; [done |].
  unfold converted_grams. cbn [omap list_omap].
  destruct (entry_gram ucnv_toUChars type cur) as [[k v]|] eqn:E; [| done].
  cbn [sum_freqs foldr snd].
  enough (0 <= v) by (unfold converted_grams, sum_freqs in IH; lia).
  unfold entry_gram in E.
  destruct (ucl_key cur); cbn [mbind option_bind] in E; [| done].
  case_decide; [| done]. injection E as _ <-. apply u32_nonneg.
Qed.

(** X17: when every key converts without error, no two members of "freq"
    carry the same key of a given length and the frequencies of that length
    add up to less than [2 ^ 32], the counter of the table equals the sum of
    the frequencies stored in it. *)
Theorem read_file_total_is_table_sum nm entries type :
  (forall cur key, cur ∈ entries -> ucl_key cur = Some key ->
                   (ucnv_toUChars key 0).2 = 0) ->
  NoDup (converted_grams ucnv_toUChars type entries).*1 ->
  sum_freqs (converted_grams ucnv_toUChars type entries) < 2 ^ 32 ->
  ngramms_total_of (read_file_profile ucnv_toUChars nm entries).1 type
    = table_sum (ngramms_of (read_file_profile ucnv_toUChars nm entries).1 type).
Proof.
  intros Hclean Hnd Hsum.
  destruct (read_file_profile_tables nm entries type Hclean)
    as (_ & -> & ->).
  rewrite table_sum_list_to_map.
  - rewrite sum_freqs_reverse.
    apply u32_small. pose proof (converted_grams_nonneg type entries). lia.
  - by rewrite fmap_reverse, reverse_Permutation.
Qed.

(** X18: with a converter that, when it reports no error, has written at
    least as many characters as it returns, every key of the table of a
    gram order has exactly that many characters, whatever the file holds:
    no shorter and no longer key ever enters a table. *)
Theorem read_file_key_lengths nm entries type key :
  (forall k e, (ucnv_toUChars k e).2 = 0 ->
     u32 (ucnv_toUChars k e).1.1
       <= Z.of_nat (length (ucnv_toUChars k e).1.2)) ->
  is_Some (ngramms_of (read_file_profile ucnv_toUChars nm entries).1 type
             !! key) ->
  Z.of_nat (length key) = wlen_of type.
Proof.
  intros Hconv. unfold read_file_profile.
  set (Inv := λ nelt : rspamd_language_elt,
         forall ty k, is_Some (ngramms_of nelt ty !! k) ->
                      Z.of_nat (length k) = wlen_of ty).
  enough (Hall : forall st, Inv st.1 ->
            Inv (foldl (read_file_entry ucnv_toUChars) st entries).1).
  { apply (Hall (mk_elt nm 0 ∅ 0 ∅ 0 ∅, 0)).
    intros [] k [v Hv]; cbn in Hv; by rewrite lookup_empty in Hv. }
  induction entries as [|cur entries IH]; intros st Hst; [done |].
  cbn [foldl]. apply IH.
  unfold read_file_entry.
  destruct (ucl_key cur) as [k0|]; [| done].
  specialize (Hconv k0 st.2).
  destruct (ucnv_toUChars k0 st.2) as [[ret ucs_key] uc_err].
  cbn [fst snd] in Hconv.
  destruct (decide (uc_err <> 0)) as [Hne | He]; [done |].
  assert (uc_err = 0) as -> by (destruct (decide (uc_err = 0)); [done | tauto]).
  specialize (Hconv eq_refl).
  destruct (decide (u32 ret = 2)) as [E2 | E2];
    [| destruct (decide (u32 ret = 3)) as [E3 | E3];
       [| destruct (decide (u32 ret = 1)) as [E1 | E1]]];
    cbn [fst snd]; [| | | done];
    intros [] k; cbn [elt_insert ngramms_of unigramms bigramms trigramms wlen_of];
    try (apply (Hst rs_unigramm)); try (apply (Hst rs_bigramm));
    try (apply (Hst rs_trigramm));
    (intros [v Hv]; apply lookup_insert_Some in Hv as [[<- _] | [_ Hv]];
     [rewrite length_take; lia |]);
    [apply (Hst rs_bigramm) | apply (Hst rs_trigramm) | apply (Hst rs_unigramm)];
    by exists v.
Qed.

End Loader.

(** ** Building the detector *)

Section Init.

Context (ucnv_toUChars : list Z -> Z -> Z * list UChar * Z).
Context (files : string -> ucl_file).

Lemma read_file_entry_name st cur :
  name (read_file_entry ucnv_toUChars st cur).1 = name st.1.
Proof.
  unfold read_file_entry. destruct (ucl_key cur) as [key|]; [| done].
  destruct (ucnv_toUChars key st.2) as [[ret ucs_key] uc_err].
  by repeat case_decide.
Qed.

Lemma read_file_profile_name nm entries :
  name (read_file_profile ucnv_toUChars nm entries).1 = nm.
Proof.
  unfold read_file_profile.
  enough (H : forall st,
            name (foldl (read_file_entry ucnv_toUChars) st entries).1
            = name st.1) by apply H.
  induction entries as [|cur entries IH]; intros st; [done |].
  cbn [foldl]. by rewrite IH, read_file_entry_name.
Qed.

(** One file: the limit is kept, the profiles already loaded are kept, and
    a file with a "freq" member adds one profile named after its path. *)
Lemma read_file_ok d path d' :
  rspamd_language_detector_read_file ucnv_toUChars d path (files path) = Ok d' ->
  short_text_limit d' = short_text_limit d
  /\ if has_freq (files path)
     then exists e, languages d' = languages d ++ [e]
                    /\ language_name_of_path path = Ok (name e)
     else languages d' = languages d.
Proof.
  unfold rspamd_language_detector_read_file, has_freq.
  destruct (files path) as [|[entries|]]; try by intros [= <-].
  destruct (language_name_of_path path) as [nm| | |]; try done.
  intros [= <-]. split; [done |].
  eexists. split; [done |]. by rewrite read_file_profile_name.
Qed.

Lemma read_files_ok paths :
  forall d d',
    read_files ucnv_toUChars files d paths = Ok d' ->
    short_text_limit d' = short_text_limit d
    /\ exists loaded,
         languages d' = languages d ++ loaded
         /\ Forall2 (λ e path, language_name_of_path path = Ok (name e))
              loaded (filter (λ path, has_freq (files path)) paths).
Proof.
  induction paths as [|path paths IH]; intros d d'; cbn [read_files].
  - intros [= <-]. split; [done |]. exists []. by rewrite app_nil_r.
  - destruct (rspamd_language_detector_read_file ucnv_toUChars d path
                (files path)) as [d1| | |] eqn:E; try done.
    intros Hrest. apply read_file_ok in E as [Hlim Hone].
    apply IH in Hrest as (Hlim' & loaded & Hl & Hall).
    split; [congruence |].
    rewrite filter_cons. destruct (has_freq (files path)) eqn:Hf.
    + destruct Hone as (e & He & Hname).
      rewrite decide_True by exact I.
      exists (e :: loaded). rewrite Hl, He, <- app_assoc.
      split; [done |]. by constructor.
    + rewrite decide_False by (intros []).
      exists loaded. by rewrite Hl, Hone.
Qed.

Lemma read_files_succeeds paths :
  (forall path, path ∈ paths -> has_freq (files path) ->
     exists nm, language_name_of_path path = Ok nm) ->
  forall d, exists d', read_files ucnv_toUChars files d paths = Ok d'.
Proof.
  induction paths as [|path paths IH]; intros Hnames d; cbn [read_files];
    [by eexists |].
  assert (Hone : exists d1,
    rspamd_language_detector_read_file ucnv_toUChars d path (files path)
    = Ok d1).
  { unfold rspamd_language_detector_read_file.
    destruct (files path) as [|[entries|]] eqn:Ef; try by eexists.
    destruct (Hnames path) as (nm & ->); [by left | by rewrite Ef |].
    by eexists. }
  destruct Hone as (d1 & ->). apply IH.
  intros p Hp. apply Hnames. by right.
Qed.

(** X19: when the set-up returns, the result is [NULL] exactly when [glob]
    failed; otherwise the short-text limit of the detector is the
    configured "short_text_limit" (as a [gsize]) if the section and the
    member are there and 200 if not. *)
Theorem init_limit_and_null plugins_dir open_err glob section r :
  rspamd_language_detector_init plugins_dir ucnv_toUChars open_err glob files
    section = Ok r ->
  (r = None
   <-> glob (default (plugins_dir +:+ "/languages") (section ≫= sec_languages)
             +:+ "/*.json") = None)
  /\ forall d, r = Some d ->
       short_text_limit d
       = default 200 (u64 <$> (section ≫= sec_short_text_limit)).
Proof.
  unfold rspamd_language_detector_init.
  destruct (glob _) as [paths|]; [| by intros [= <-]].
  case_decide; [| done].
  destruct (read_files ucnv_toUChars files _ paths) as [d| | |] eqn:E;
    try done.
  intros [= <-]. split; [done |].
  intros d' [= <-]. by apply read_files_ok in E as [-> _].
Qed.

(** X20: when [glob] succeeds, the converter opens, and every matched path
    whose file has a "freq" member has a slash and, after the last slash, a
    dot, the detector is built and holds one profile per such file, in the
    order [glob] gave the paths, each named after its file; files that do
    not parse or have no "freq" member are passed over. *)
Theorem init_loads_in_glob_order plugins_dir glob section paths :
  glob (default (plugins_dir +:+ "/languages") (section ≫= sec_languages)
        +:+ "/*.json") = Some paths ->
  (forall path, path ∈ paths -> has_freq (files path) ->
     exists nm, language_name_of_path path = Ok nm) ->
  exists d,
    rspamd_language_detector_init plugins_dir ucnv_toUChars 0 glob files section
      = Ok (Some d)
    /\ Forall2 (λ e path, language_name_of_path path = Ok (name e))
         (languages d) (filter (λ path, has_freq (files path)) paths).
Proof.
  intros Hglob Hnames. unfold rspamd_language_detector_init.
  rewrite Hglob. rewrite decide_True by done.
  destruct (read_files_succeeds paths Hnames
              (mk_detector []
                 (default default_short_text_limit
                    (u64 <$> (section ≫= sec_short_text_limit)))))
    as (d & Hd).
  rewrite Hd. exists d. split; [done |].
  apply read_files_ok in Hd as (_ & loaded & -> & Hall). done.
Qed.

End Init.

(** ** Concrete runs of the further properties *)

Lemma next_ngramm_result_witness :
  length [97; 98; 0] = length [0; 0; 0]
  /\ (1 = 0 + 1 \/ (1 = -1 /\ [97; 98; 0] = [0; 0; 0])).
Proof.
  apply (next_ngramm_result tok_abc [0; 0; 0] 2 0 [97; 98; 0] 1).
  reflexivity.
Defined.

Lemma token_windows_are_storage_slices_witness :
  0 <= 1 /\ 1 + wlen_of rs_bigramm
            <= Z.max (wlen_of rs_bigramm) (len tok_abc + 1)
  /\ [98; 99] = slice 1 (wlen_of rs_bigramm) (begin tok_abc)
  /\ length [98; 99] = Z.to_nat (wlen_of rs_bigramm).
Proof.
  apply (token_windows_are_storage_slices tok_abc [0; 0; 0] rs_bigramm
           [(0, [97; 98]); (1, [98; 99]); (2, [99; 0])]).
  - by left.
  - reflexivity.
  - vm_compute. split; [discriminate | reflexivity].
  - vm_compute. discriminate.
  - reflexivity.
  - apply list_elem_of_further, list_elem_of_here.
Defined.

Lemma random_select_slots_witness :
  let step := ptr_array_len five_tokens / 2 in
  let rem := ptr_array_len five_tokens mod 2 in
  exists buf',
    rspamd_language_detector_random_select five_tokens 2 (Some [0; 0])
      (λ _, 0) 0 = Ok (buf', (0 + Z.to_nat 2)%nat)
    /\ length buf' = length [0; 0]
    /\ (forall j : nat, Z.of_nat j < 2 - 1 ->
          exists v, buf' !! j = Some v
                    /\ step + rem + Z.of_nat j * step <= v
                       < step + rem + (Z.of_nat j + 1) * step)
    /\ (forall p : nat, 2 - 1 <= Z.of_nat p -> buf' !! p = [0; 0] !! p).
Proof.
  apply (random_select_slots five_tokens 2 [0; 0] (λ _, 0) 0%nat).
  - lia.
  - vm_compute. discriminate.
  - reflexivity.
  - vm_compute. discriminate.
Defined.

Lemma random_select_sorted_in_range_witness :
  (forall (j : nat) v,
     Z.of_nat j < 3 - 1 -> [3; 4; 0] !! j = Some v ->
     0 <= v < ptr_array_len five_tokens)
  /\ (forall (j1 j2 : nat) v1 v2,
        (j1 < j2)%nat -> Z.of_nat j2 < 3 - 1 ->
        [3; 4; 0] !! j1 = Some v1 -> [3; 4; 0] !! j2 = Some v2 ->
        v1 < v2).
Proof.
  apply (random_select_sorted_in_range five_tokens 3 [0; 0; 0] (λ _, 0) 0%nat
           [3; 4; 0] 3%nat).
  - lia.
  - vm_compute. discriminate.
  - reflexivity.
  - vm_compute. discriminate.
  - reflexivity.
Defined.

Lemma random_select_one_witness :
  exists v,
    rspamd_language_detector_random_select five_tokens 1 (Some [0]) (λ _, 13) 0
      = Ok (<[0%nat := v]> [0], 1%nat)
    /\ v = u64 13 mod ptr_array_len five_tokens
    /\ 0 <= v < ptr_array_len five_tokens.
Proof.
  apply (random_select_one five_tokens [0] (λ _, 13) 0%nat).
  - vm_compute. discriminate.
  - reflexivity.
  - simpl. lia.
Defined.


Lemma update_scan_without_match_witness :
  rspamd_language_detector_process_ngramm_update toy_detector [122; 0; 0]
    rs_unigramm {[ "en" := mk_res 3 "en" lang_en ]}
  = {[ "en" := mk_res 3 "en" lang_en ]}.
Proof.
  apply (update_scan_without_match [122; 0; 0] rs_unigramm toy_detector
           {[ "en" := mk_res 3 "en" lang_en ]}).
  - vm_compute. apply NoDup_cons. split.
    + intros H. apply list_elem_of_singleton in H. discriminate.
    + apply NoDup_singleton.
  - intros key cand H. apply lookup_singleton_Some in H as [<- <-].
    split; [reflexivity |]. split; [apply list_elem_of_here | reflexivity].
Defined.

Lemma ngramm_equal_iff_witness :
  ngramm_equal rs_bigramm [97; 98; 99] [97; 98; 100]
    = Some (bool_decide (take (Z.to_nat (wlen_of rs_bigramm)) [97; 98; 99]
                         = take (Z.to_nat (wlen_of rs_bigramm)) [97; 98; 100])).
Proof.
  apply (ngramm_equal_iff rs_bigramm [97; 98; 99] [97; 98; 100]).
  - repeat constructor; vm_compute; discriminate.
  - repeat constructor; vm_compute; discriminate.
  - vm_compute. discriminate.
  - vm_compute. discriminate.
Defined.

Lemma ngramm_equal_same_hash_witness :
  ngramm_hash rs_bigramm sample_hash 5 [97; 98; 99]
    = ngramm_hash rs_bigramm sample_hash 5 [97; 98; 100].
Proof.
  apply (ngramm_equal_same_hash rs_bigramm sample_hash 5
           [97; 98; 99] [97; 98; 100]).
  reflexivity.
Defined.

Lemma sample_ucnv_keeps_error key e :
  e <> 0 -> (sample_ucnv key e).2 <> 0.
Proof. intros He. unfold sample_ucnv. by rewrite decide_False. Qed.

Lemma sample_ucnv_writes_enough key e :
  (sample_ucnv key e).2 = 0 ->
  u32 (sample_ucnv key e).1.1 <= Z.of_nat (length (sample_ucnv key e).1.2).
Proof.
  unfold sample_ucnv. repeat case_decide; cbn [fst snd]; try done.
  intros _. rewrite length_app. cbn [length].
  unfold u32. pose proof (Z.mod_le (Z.of_nat (length key)) (2 ^ 32)). lia.
Qed.

Lemma sample_entries_convert cur key :
  cur ∈ sample_entries -> ucl_key cur = Some key ->
  (sample_ucnv key 0).2 = 0.
Proof.
  unfold sample_entries. intros Hin.
  repeat (apply elem_of_cons in Hin as [-> | Hin]);
    [| | | | by apply elem_of_nil in Hin];
    cbn [ucl_key]; intros [= <-]; reflexivity.
Qed.

Lemma read_file_stops_at_first_error_witness :
  (read_file_profile sample_ucnv "en"
     (sample_entries ++ mk_entry (Some [200]) 1 :: sample_entries)).1
  = (read_file_profile sample_ucnv "en" sample_entries).1.
Proof.
  apply (read_file_stops_at_first_error sample_ucnv "en" sample_entries
           (mk_entry (Some [200]) 1) [200] sample_entries).
  - exact sample_ucnv_keeps_error.
  - reflexivity.
  - vm_compute. discriminate.
Defined.

Lemma read_file_profile_clean_witness :
  let profile := (read_file_profile sample_ucnv "en" sample_entries).1 in
  name profile = "en"
  /\ (forall key,
        ngramms_of profile rs_unigramm !! key
        = (list_to_map
             (reverse (converted_grams sample_ucnv rs_unigramm sample_entries))
             : gmap (list UChar) Z) !! key)
  /\ ngramms_total_of profile rs_unigramm
     = u32 (sum_freqs (converted_grams sample_ucnv rs_unigramm sample_entries)).
Proof.
  apply (read_file_profile_clean sample_ucnv "en" sample_entries rs_unigramm).
  exact sample_entries_convert.
Defined.

Lemma read_file_total_is_table_sum_witness :
  ngramms_total_of (read_file_profile sample_ucnv "en" sample_entries).1
    rs_unigramm
  = table_sum
      (ngramms_of (read_file_profile sample_ucnv "en" sample_entries).1
         rs_unigramm).
Proof.
  apply (read_file_total_is_table_sum sample_ucnv "en" sample_entries
           rs_unigramm).
  - exact sample_entries_convert.
  - vm_compute. apply NoDup_cons. split.
    + intros H. apply list_elem_of_singleton in H. discriminate.
    + apply NoDup_singleton.
  - reflexivity.
Defined.

Lemma read_file_key_lengths_witness :
  Z.of_nat (length [116; 104]) = wlen_of rs_bigramm.
Proof.
  apply (read_file_key_lengths sample_ucnv "en" sample_entries rs_bigramm
           [116; 104]).
  - exact sample_ucnv_writes_enough.
  - exists 7. reflexivity.
Defined.

Lemma init_limit_and_null_witness :
  (Some (mk_detector
           [(read_file_profile sample_ucnv "en" sample_entries).1] 50)
     = None
   <-> sample_glob (default ("/plugins" +:+ "/languages")
                      (sample_section ≫= sec_languages) +:+ "/*.json") = None)
  /\ forall d,
       Some (mk_detector
               [(read_file_profile sample_ucnv "en" sample_entries).1] 50)
       = Some d ->
       short_text_limit d
       = default 200 (u64 <$> (sample_section ≫= sec_short_text_limit)).
Proof.
  apply (init_limit_and_null sample_ucnv sample_files "/plugins" 0 sample_glob
           sample_section).
  reflexivity.
Defined.

Lemma init_loads_in_glob_order_witness :
  exists d,
    rspamd_language_detector_init "/plugins" sample_ucnv 0 sample_glob
      sample_files sample_section = Ok (Some d)
    /\ Forall2 (λ e path, language_name_of_path path = Ok (name e))
         (languages d)
         (filter (λ path, has_freq (sample_files path))
            ["/l/bad.json"; "/l/en.json"; "/l/xx.json"]).
Proof.
  apply (init_loads_in_glob_order sample_ucnv sample_files "/plugins"
           sample_glob sample_section
           ["/l/bad.json"; "/l/en.json"; "/l/xx.json"]).
  - reflexivity.
  - intros path Hin.
    repeat (apply elem_of_cons in Hin as [-> | Hin]);
      [| | | by apply elem_of_nil in Hin];
      intros _; eexists; reflexivity.
Defined.

(** ** Converted tokens and the window walk *)

Section Converted.

Lemma for_loop_none {S : Type} (body : Z -> S -> option S) (n : nat) :
  forall (j : nat) i s,
    (j < n)%nat -> (forall s', body (i + Z.of_nat j) s' = None) ->
    for_loop n i body s = None.
Proof.
  induction n as [|n IH]; intros j i s Hj Hnone; [lia |].
  cbn [for_loop]. destruct j as [|j].
  - rewrite Z.add_0_r in Hnone. by rewrite Hnone.
  - destruct (body i s) as [s1|]; [| done]. cbn [mbind option_bind].
    apply (IH j); [lia |]. intros s'.
    replace (i + 1 + Z.of_nat j) with (i + Z.of_nat (Datatypes.S j)) by lia.
    apply Hnone.
Qed.

(** X21: the walk needs a storage of at least as many elements as the
    window is wide: for a window size of two or three and a token whose
    storage is shorter than that, the very first call reads past the end of
    the storage, whatever the token's length field says. *)
Theorem token_windows_short_storage tok window type :
  type = rs_bigramm \/ type = rs_trigramm ->
  Z.of_nat (length (begin tok)) < wlen_of type ->
  token_windows tok window type = None.
Proof.
  intros Hty Hshort.
  assert (Hw : 2 <= wlen_of type <= 3)
    by (destruct Hty as [-> | ->]; cbn; lia).
  unfold token_windows.
  replace (Z.to_nat (len tok) + 2)%nat
    with (Datatypes.S (Z.to_nat (len tok) + 1)) by lia.
  cbn [ngramm_walk].
  assert (Hcall : rspamd_language_detector_next_ngramm tok window
                    (wlen_of type) 0 = None); [| by rewrite Hcall].
  unfold rspamd_language_detector_next_ngramm.
  rewrite decide_True by lia. rewrite decide_True by done.
  destruct (window_store window 0 SPACE) as [w0|]; [| done].
  cbn [mbind option_bind].
  destruct (for_loop (Z.to_nat (wlen_of type - 1)) 0 _ w0) as [w1|]; [| done].
  cbn [mbind option_bind].
  rewrite (for_loop_none _ (Z.to_nat (wlen_of type))
             (Z.to_nat (wlen_of type - 1))); [done | lia |].
  intros s'. unfold tok_load. rewrite decide_True by lia.
  rewrite lookup_ge_None_2; [done | lia].
Qed.

(** X22: a token converted from at least two bytes can be walked with a
    window size of two and of three: if the converter fills a buffer of the
    capacity it is given and returns a length between zero and the number of
    bytes, the converted token has that length, its storage has room for
    every read of the walk, and the walk produces [max 1 (L + 2 - w)]
    windows. *)
Theorem to_ucs_then_walk ucnv_toUChars utf_token ucs_token window type :
  type = rs_bigramm \/ type = rs_trigramm ->
  length window = 3%nat ->
  2 <= len utf_token.2 < 2 ^ 63 ->
  0 <= (ucnv_toUChars utf_token.2 (len utf_token.2 + 1)).1
    <= len utf_token.2 ->
  Z.of_nat (length (ucnv_toUChars utf_token.2 (len utf_token.2 + 1)).2)
    = len utf_token.2 + 1 ->
  let converted :=
    rspamd_language_detector_to_ucs ucnv_toUChars utf_token ucs_token in
  converted.1 = utf_token.1
  /\ len converted.2 = (ucnv_toUChars utf_token.2 (len utf_token.2 + 1)).1
  /\ exists ws,
       token_windows converted.2 window type = Some ws
       /\ Z.of_nat (length ws)
          = Z.max 1 (len converted.2 + 2 - wlen_of type).
Proof.
  intros Hty Hwin Hlen Hret Hcap converted. subst converted.
  unfold rspamd_language_detector_to_ucs.
  destruct (ucnv_toUChars utf_token.2 (len utf_token.2 + 1)) as [nsym out].
  cbn [fst snd] in *. rewrite decide_True by lia. cbn [len].
  split; [done |]. split; [done |].
  assert (Hw : 2 <= wlen_of type <= 3)
    by (destruct Hty as [-> | ->]; cbn; lia).
  rewrite token_windows_walk; cbn [len begin]; [| done | done | lia | lia].
  eexists. split; [done |].
  rewrite length_fmap, length_seqZ. lia.
Qed.

End Converted.

Lemma token_windows_short_storage_witness :
  token_windows (mk_token [97; 0] 1) [0; 0; 0] rs_trigramm = None.
Proof.
  apply (token_windows_short_storage (mk_token [97; 0] 1) [0; 0; 0]
           rs_trigramm).
  - by right.
  - vm_compute. reflexivity.
Defined.

Lemma to_ucs_then_walk_witness :
  let converted :=
    rspamd_language_detector_to_ucs sample_tok_ucnv
      (7, mk_token [97; 98; 99] 3) (0, mk_token [] 0) in
  converted.1 = 7
  /\ len converted.2 = (sample_tok_ucnv (mk_token [97; 98; 99] 3) (3 + 1)).1
  /\ exists ws,
       token_windows converted.2 [0; 0; 0] rs_trigramm = Some ws
       /\ Z.of_nat (length ws)
          = Z.max 1 (len converted.2 + 2 - wlen_of rs_trigramm).
Proof.
  apply (to_ucs_then_walk sample_tok_ucnv (7, mk_token [97; 98; 99] 3)
           (0, mk_token [] 0) [0; 0; 0] rs_trigramm).
  - by right.
  - reflexivity.
  - vm_compute. split; [discriminate | reflexivity].
  - vm_compute. split; discriminate.
  - reflexivity.
Defined.
